(** * The WhatsApp notifier scripts, as pure functions over an effect trace

    Two scripts of the repository are embedded here:

    - [Plus]    : the enhanced notifier (exit codes 0/1/2/3, numeric
                  fallback, [gracefulExit]), the file headed
                  [// notifier/send_whatsapp.js];
    - [Minimal] : [patient_watcher_plus/notifier/send_whatsapp.js], the
                  minimal notifier (name match only, [finally] block).

    Both are callback-driven Node programs.  A program is a value of the
    monad [M]: the list of effects it performed on the outside world and
    the way it completed (returned, threw, or called [process.exit]).
    The behaviour of the messaging library is an input of the model, the
    record [World]; the events the library emits are a list of
    [ClientEvent] that the event loop [dispatch] hands to the registered
    handlers one after the other.  A handler runs to its end before the
    next event is handled: the handlers of [qr] and [auth_failure] are
    synchronous and only write to the console, so that letting them run
    between two [await]s of the ready handler would move their lines in
    the trace and change nothing else. *)

From Stdlib Require Import String Ascii List ZArith Bool Lia.
Import ListNotations.
Local Open Scope string_scope.
Local Open Scope list_scope.

(** ** JavaScript values the scripts handle *)

(** A thrown value (the [err] of a [catch] clause). *)
Inductive JsError : Type :=
| Error (what : string).

(** [c.id] of a chat: only [c.id.user] is read by the scripts;
    [_serialized] tells two chats of the same name and number apart. *)
Record ChatId : Type := mkChatId {
  user : string;
  _serialized : string
}.

Record Chat : Type := mkChat {
  name : string;
  id : ChatId
}.

(** The message object [chat.sendMessage] resolves to.  The script
    reads [res.id.id], which the library always provides: a [Message]
    carries an [id] with a string [id]. *)
Record MessageId : Type := mkMessageId { id_id : string }.
Record Message : Type := mkMessage { msg_id : MessageId }.

(** An argument of [console.log] / [console.error]. *)
Inductive JsVal : Type :=
| VStr (s : string)
| VErr (e : JsError).

(** A settled promise of the library: fulfilled with a value or rejected. *)
Inductive settled (A : Type) : Type :=
| Fulfilled (a : A)
| Rejected (e : JsError).
Arguments Fulfilled {A} a.
Arguments Rejected {A} e.

(** What the outside world answers to the three asynchronous calls. *)
Record World : Type := mkWorld {
  getChats : settled (list Chat);
  sendMessage : Chat -> string -> settled Message;
  destroy : settled unit
}.

(** Effects on the outside world, in program order.  A call is recorded
    when it is issued, whether or not it then fails. *)
Inductive effect : Type :=
| ConsoleError (args : list JsVal)
| ConsoleLog (args : list JsVal)
| NewClient (clientId : string)
| On (event : string)
| Initialize
| QrGenerate (qr : string)
| CallGetChats
| CallSendMessage (c : Chat) (text : string)
| CallDestroy
| SetTimeout (ms : Z).

(** ** The monad of a running script *)

Inductive completion (A : Type) : Type :=
| Ret (a : A)
| Throw (e : JsError)
| Exit (code : Z).
Arguments Ret {A} a.
Arguments Throw {A} e.
Arguments Exit {A} code.

Definition M (A : Type) : Type := (list effect * completion A)%type.

Definition ret {A} (a : A) : M A := ([], Ret a).

Definition bind {A B} (m : M A) (k : A -> M B) : M B :=
  match m with
  | (t, Ret a) => let (t', c) := k a in (t ++ t', c)
  | (t, Throw e) => (t, Throw e)
  | (t, Exit code) => (t, Exit code)
  end.

Notation "x <- m ;; k" := (bind m (fun x => k))
  (at level 61, m at next level, right associativity).
Notation "m ;; k" := (bind m (fun _ => k))
  (at level 61, right associativity).

Definition perform (e : effect) : M unit := ([e], Ret tt).
Definition throw {A} (e : JsError) : M A := ([], Throw e).

(** [process.exit(code)]: nothing of the script runs after it, no
    [catch] and no [finally] either. *)
Definition process_exit {A} (code : Z) : M A := ([], Exit code).

(** [await p] of a settled promise. *)
Definition await {A} (p : settled A) : M A :=
  match p with
  | Fulfilled a => ret a
  | Rejected e => throw e
  end.

(** [try { body } catch (err) { handler err }] *)
Definition try_catch {A} (body : M A) (handler : JsError -> M A) : M A :=
  match body with
  | (t, Throw e) => let (t', c) := handler e in (t ++ t', c)
  | done => done
  end.

(** [try { body } finally { fin }]: [fin] runs after a normal or an
    abrupt completion of [body], and its own abrupt completion replaces
    the one of [body]. *)
Definition try_finally {A} (body : M A) (fin : M unit) : M A :=
  match body with
  | (t, Exit code) => (t, Exit code)
  | (t, c) =>
      match fin with
      | (t', Ret _) => (t ++ t', c)
      | (t', Throw e) => (t ++ t', Throw e)
      | (t', Exit code) => (t ++ t', Exit code)
      end
  end.

Definition console_error (args : list JsVal) : M unit :=
  perform (ConsoleError args).
Definition console_log (args : list JsVal) : M unit :=
  perform (ConsoleLog args).

(** ** Strings *)

(** The double quote character, and a string between double quotes. *)
Definition dquote : string := String (ascii_of_nat 34) EmptyString.
Definition quoted (s : string) : string := dquote ++ s ++ dquote.

(** Truthiness of a string, and of a possibly [undefined] string. *)
Definition truthy (s : string) : bool :=
  match s with
  | EmptyString => false
  | String _ _ => true
  end.

Definition truthy_opt (s : option string) : bool :=
  match s with
  | None => false
  | Some s => truthy s
  end.

(** [parts.join(' ')] *)
Definition join (parts : list string) : string := String.concat " " parts.

(** [s.replace(/[cls]/g, repl)] for a character class [cls] and a
    replacement without [$] patterns: every character of the class is
    replaced, left to right. *)
Fixpoint replace_class_g (cls : ascii -> bool) (repl s : string) : string :=
  match s with
  | EmptyString => EmptyString
  | String c s' =>
      if cls c then repl ++ replace_class_g cls repl s'
      else String c (replace_class_g cls repl s')
  end.

(** The class [[+ ]]. *)
Definition plus_or_space (c : ascii) : bool :=
  Ascii.eqb c "+" || Ascii.eqb c " ".

(** ** The client's events and the event loop *)

Inductive ClientEvent : Type :=
| EvQr (qr : string)
| EvReady
| EvAuthFailure (m : string).

(** How a run stands once the given events have been handled:
    still waiting for events, ended by [process.exit], or left with an
    exception nobody caught (at top level, or the rejected promise of an
    async handler, which no [process.exit] of the script follows; what
    the runtime does with it is outside the script). *)
Inductive status : Type :=
| Running
| Exited (code : Z)
| Uncaught (e : JsError).

Fixpoint dispatch (handler : ClientEvent -> M unit) (evs : list ClientEvent)
  : list effect * status :=
  match evs with
  | [] => ([], Running)
  | ev :: rest =>
      match handler ev with
      | (t, Ret _) => let (t', s) := dispatch handler rest in (t ++ t', s)
      | (t, Throw e) => (t, Uncaught e)
      | (t, Exit code) => (t, Exited code)
      end
  end.

(** The run of a script: its top level [main], which yields the
    variables its handlers close over, then the event loop. *)
Definition run_script {Env} (main : M Env) (handle : Env -> ClientEvent -> M unit)
    (evs : list ClientEvent) : list effect * status :=
  match main with
  | (t, Ret env) => let (t', s) := dispatch (handle env) evs in (t ++ t', s)
  | (t, Throw e) => (t, Uncaught e)
  | (t, Exit code) => (t, Exited code)
  end.

(** Number of times the session release is called in a trace. *)
Definition is_destroy (e : effect) : bool :=
  match e with CallDestroy => true | _ => false end.
Definition is_send (e : effect) : bool :=
  match e with CallSendMessage _ _ => true | _ => false end.
Definition is_new_client (e : effect) : bool :=
  match e with NewClient _ => true | _ => false end.
Definition count (p : effect -> bool) (t : list effect) : nat :=
  length (filter p t).

(** [a || b] on possibly [undefined] objects (an object is truthy). *)
Definition js_or {A} (a b : option A) : option A :=
  match a with
  | Some x => Some x
  | None => b
  end.

(** ** The enhanced notifier *)

Module Plus.

(** The top-level constants the handlers close over. *)
Record Env : Type := mkEnv {
  recipientRaw : string;
  recipient : string;
  message : string
}.

Definition usage : string :=
  "Usage: node send_whatsapp.js " ++ quoted "Recipient" ++ " "
    ++ quoted "Message text".

(** [recipientRaw.replace(/[+ ]/g, '')] *)
Definition normalize (raw : string) : string :=
  replace_class_g plus_or_space EmptyString raw.

(** The top level of the script, down to [client.initialize()].
    [argv] is [process.argv]; [recipientRaw] is [undefined] when
    [argv] has no third element, and [.replace] on [undefined] would
    be a TypeError. *)
Definition main (argv : list string) : M Env :=
  let recipientRaw := nth_error argv 2 in
  let msgParts := skipn 3 argv in
  let message := join msgParts in
  (if negb (truthy_opt recipientRaw) || negb (truthy message)
   then console_error [VStr usage] ;; process_exit 1
   else ret tt) ;;
  raw <- match recipientRaw with
         | Some r => ret r
         | None => throw (Error "TypeError")
         end ;;
  let recipient := normalize raw in
  perform (NewClient "patient-watcher") ;;
  perform (On "qr") ;;
  perform (On "ready") ;;
  perform (On "auth_failure") ;;
  perform Initialize ;;
  ret (mkEnv raw recipient message).

Section Handlers.
Variable w : World.
Variable env : Env.

Definition on_qr (qr : string) : M unit :=
  perform (QrGenerate qr) ;;
  console_log [VStr "Scan the QR to authenticate."].

Definition gracefulExit (code : Z) : M unit :=
  try_catch (perform CallDestroy ;; await (destroy w))
            (fun _ => ret tt) ;;
  process_exit code.

Definition send (chat : Chat) : M unit :=
  try_catch
    (perform (CallSendMessage chat (message env)) ;;
     res <- await (sendMessage w chat (message env)) ;;
     console_log [VStr "Message queued:"; VStr (id_id (msg_id res))] ;;
     perform (SetTimeout 3000) ;;
     gracefulExit 0)
    (fun err =>
       console_error [VStr "Failed to send message:"; VErr err] ;;
       gracefulExit 1).

(** The chat the ready handler picks out of [chats]. *)
Definition find_chat (chats : list Chat) : option Chat :=
  js_or (find (fun c => name c =? recipientRaw env) chats)
        (find (fun c => user (id c) =? recipient env) chats).

Definition not_found_text : string :=
  "Chat " ++ quoted (recipientRaw env) ++ " not found.".

Definition on_ready : M unit :=
  try_catch
    (perform CallGetChats ;;
     chats <- await (getChats w) ;;
     match find_chat chats with
     | None =>
         console_error [VStr not_found_text] ;;
         gracefulExit 2
     | Some chat => send chat
     end)
    (fun err =>
       console_error [VStr "Unexpected error:"; VErr err] ;;
       gracefulExit 3).

Definition on_auth_failure (m : string) : M unit :=
  console_error [VStr "Auth failure"; VStr m].

Definition handle (ev : ClientEvent) : M unit :=
  match ev with
  | EvQr qr => on_qr qr
  | EvReady => on_ready
  | EvAuthFailure m => on_auth_failure m
  end.
End Handlers.

Definition run (w : World) (argv : list string) (evs : list ClientEvent)
  : list effect * status :=
  run_script (main argv) (handle w) evs.

End Plus.

(** ** The minimal notifier *)

Module Minimal.

Record Env : Type := mkEnv {
  recipient : string;
  message : string
}.

Definition usage : string :=
  "Usage: node send_whatsapp.js " ++ quoted "Recipient Name" ++ " "
    ++ quoted "Message text".

Definition main (argv : list string) : M Env :=
  let recipient := nth_error argv 2 in
  let msgParts := skipn 3 argv in
  let message := join msgParts in
  (if negb (truthy_opt recipient) || negb (truthy message)
   then console_error [VStr usage] ;; process_exit 1
   else ret tt) ;;
  perform (NewClient "patient-watcher") ;;
  perform (On "qr") ;;
  perform (On "ready") ;;
  perform (On "auth_failure") ;;
  perform Initialize ;;
  (* the handlers read [recipient] as a string: the usage check has
     exited when it is [undefined] *)
  match recipient with
  | Some r => ret (mkEnv r message)
  | None => throw (Error "TypeError")
  end.

Section Handlers.
Variable w : World.
Variable env : Env.

Definition on_qr (qr : string) : M unit :=
  perform (QrGenerate qr) ;;
  console_log [VStr "Scan the QR code above in WhatsApp to authenticate."].

Definition find_chat (chats : list Chat) : option Chat :=
  find (fun c => name c =? recipient env) chats.

Definition not_found_text : string :=
  "Chat " ++ quoted (recipient env) ++ " not found.".

Definition on_ready : M unit :=
  try_finally
    (try_catch
       (perform CallGetChats ;;
        chats <- await (getChats w) ;;
        match find_chat chats with
        | None => console_error [VStr not_found_text]
        | Some chat =>
            perform (CallSendMessage chat (message env)) ;;
            _ <- await (sendMessage w chat (message env)) ;;
            console_log [VStr "Message sent:"; VStr (message env)]
        end)
       (fun err =>
          console_error [VStr "Failed to send message:"; VErr err]))
    (perform CallDestroy ;;
     await (destroy w) ;;
     process_exit 0).

Definition on_auth_failure (m : string) : M unit :=
  console_error [VStr "Auth failure"; VStr m].

Definition handle (ev : ClientEvent) : M unit :=
  match ev with
  | EvQr qr => on_qr qr
  | EvReady => on_ready
  | EvAuthFailure m => on_auth_failure m
  end.
End Handlers.

Definition run (w : World) (argv : list string) (evs : list ClientEvent)
  : list effect * status :=
  run_script (main argv) (handle w) evs.

End Minimal.

(** ** Vocabulary of the statements *)

(** An event that is not [ready]. *)
Definition not_ready (ev : ClientEvent) : bool :=
  match ev with EvReady => false | _ => true end.

Definition not_auth_failure (ev : ClientEvent) : bool :=
  match ev with EvAuthFailure _ => false | _ => true end.

(** A handler returns to the event loop. *)
Definition returns (m : M unit) : Prop := snd m = Ret tt.

(** A handler that does not return ends the run where it stands. *)
Definition final (c : completion unit) : status :=
  match c with
  | Ret _ => Running
  | Throw e => Uncaught e
  | Exit code => Exited code
  end.

(** What the script did before [ready] fired: the effects of the
    handlers of the events [pre]. *)
Definition before_ready (h : ClientEvent -> M unit) (pre : list ClientEvent)
  : list effect := fst (dispatch h pre).

(** The session set-up both scripts perform once the arguments pass. *)
Definition startup : list effect :=
  [NewClient "patient-watcher"; On "qr"; On "ready"; On "auth_failure";
   Initialize].

(** [process.argv] of [node script recipient parts...]. *)
Definition argv_of (node script raw : string) (parts : list string)
  : list string := node :: script :: raw :: parts.

(** The variables the handlers close over, for [node script raw parts...]. *)
Definition plus_env (raw : string) (parts : list string) : Plus.Env :=
  Plus.mkEnv raw (Plus.normalize raw) (join parts).

Definition minimal_env (raw : string) (parts : list string) : Minimal.Env :=
  Minimal.mkEnv raw (join parts).

(** How the [finally] block of the minimal script completes: by
    [process.exit(0)], unless [destroy] rejects. *)
Definition minimal_end (w : World) : completion unit :=
  match destroy w with
  | Fulfilled _ => Exit 0
  | Rejected e => Throw e
  end.

(** The exit code the enhanced script announces on each path of its
    ready handler: 3 when the chat list cannot be read, 2 when no chat
    is found, 1 when the send fails, 0 when it succeeds.  The answer of
    [destroy] plays no part in it. *)
Definition plus_exit_code (w : World) (env : Plus.Env) : Z :=
  match getChats w with
  | Rejected _ => 3
  | Fulfilled chats =>
      match Plus.find_chat env chats with
      | None => 2
      | Some c =>
          match sendMessage w c (Plus.message env) with
          | Fulfilled _ => 0
          | Rejected _ => 1
          end
      end
  end%Z.

(** The send calls of a trace. *)
Definition sends (t : list effect) : list effect := filter is_send t.

(** The recipient with every [+] and every space removed and nothing
    else changed, in the words of the specification: the characters of
    the recipient that are neither, in their order. *)
Definition spec_normalized (raw : list ascii) : list ascii :=
  filter (fun c => negb (Ascii.eqb c "+") && negb (Ascii.eqb c " ")) raw.

(** The arguments the usage check refuses: no recipient or an empty
    one, no message token or a single empty one. *)
Definition bad_args (argv : list string) : Prop :=
  nth_error argv 2 = None \/ nth_error argv 2 = Some EmptyString \/
  skipn 3 argv = [] \/ skipn 3 argv = [EmptyString].

(** What the handlers of the enhanced script write for an event other
    than [ready], and the same for the minimal script. *)
Definition plus_lines (ev : ClientEvent) : list effect :=
  match ev with
  | EvQr qr => [QrGenerate qr; ConsoleLog [VStr "Scan the QR to authenticate."]]
  | EvReady => []
  | EvAuthFailure m => [ConsoleError [VStr "Auth failure"; VStr m]]
  end.

Definition minimal_lines (ev : ClientEvent) : list effect :=
  match ev with
  | EvQr qr =>
      [QrGenerate qr;
       ConsoleLog [VStr "Scan the QR code above in WhatsApp to authenticate."]]
  | EvReady => []
  | EvAuthFailure m => [ConsoleError [VStr "Auth failure"; VStr m]]
  end.

Definition is_console_error (e : effect) : bool :=
  match e with ConsoleError _ => true | _ => false end.

(** The shapes a run of the enhanced script can take: refused by the
    usage check, waiting for [ready], or ended by the first [ready]. *)
Inductive plus_run_view (w : World) (argv : list string)
    (evs : list ClientEvent) : list effect * status -> Prop :=
| PlusRefused :
    bad_args argv ->
    plus_run_view w argv evs ([ConsoleError [VStr Plus.usage]], Exited 1)
| PlusWaiting (raw : string) :
    nth_error argv 2 = Some raw -> raw <> EmptyString ->
    join (skipn 3 argv) <> EmptyString ->
    forallb not_ready evs = true ->
    plus_run_view w argv evs
      (startup ++ before_ready
                    (Plus.handle w (plus_env raw (skipn 3 argv))) evs,
       Running)
| PlusReady (raw : string) (pre post : list ClientEvent) :
    nth_error argv 2 = Some raw -> raw <> EmptyString ->
    join (skipn 3 argv) <> EmptyString ->
    evs = pre ++ EvReady :: post -> forallb not_ready pre = true ->
    plus_run_view w argv evs
      (startup ++ before_ready
                    (Plus.handle w (plus_env raw (skipn 3 argv))) pre
         ++ fst (Plus.on_ready w (plus_env raw (skipn 3 argv))),
       final (snd (Plus.on_ready w (plus_env raw (skipn 3 argv))))).

Inductive minimal_run_view (w : World) (argv : list string)
    (evs : list ClientEvent) : list effect * status -> Prop :=
| MinimalRefused :
    bad_args argv ->
    minimal_run_view w argv evs ([ConsoleError [VStr Minimal.usage]], Exited 1)
| MinimalWaiting (raw : string) :
    nth_error argv 2 = Some raw -> raw <> EmptyString ->
    join (skipn 3 argv) <> EmptyString ->
    forallb not_ready evs = true ->
    minimal_run_view w argv evs
      (startup ++ before_ready
                    (Minimal.handle w (minimal_env raw (skipn 3 argv))) evs,
       Running)
| MinimalReady (raw : string) (pre post : list ClientEvent) :
    nth_error argv 2 = Some raw -> raw <> EmptyString ->
    join (skipn 3 argv) <> EmptyString ->
    evs = pre ++ EvReady :: post -> forallb not_ready pre = true ->
    minimal_run_view w argv evs
      (startup ++ before_ready
                    (Minimal.handle w (minimal_env raw (skipn 3 argv))) pre
         ++ fst (Minimal.on_ready w (minimal_env raw (skipn 3 argv))),
       final (snd (Minimal.on_ready w (minimal_env raw (skipn 3 argv))))).

(** ** Sample data *)

Definition chat_smith : Chat :=
  mkChat "Dr. Smith" (mkChatId "15550001111" "15550001111@c.us").
Definition chat_clinic : Chat :=
  mkChat "Clinic" (mkChatId "15551234567" "15551234567@c.us").
Definition chat_smith_bis : Chat :=
  mkChat "Dr. Smith" (mkChatId "15559990000" "15559990000@c.us").
Definition chat_clinic_bis : Chat :=
  mkChat "Front desk" (mkChatId "15551234567" "15551234567@g.us").
(** A chat named like a phone number, and a chat without a number. *)
Definition chat_named_number : Chat :=
  mkChat "+1 555 123 4567" (mkChatId "15557770000" "15557770000@c.us").
Definition chat_no_number : Chat :=
  mkChat "Broadcast" (mkChatId EmptyString "status@broadcast").

Definition queued : Message := mkMessage (mkMessageId "3EB0A1").
Definition boom : JsError := Error "Evaluation failed".
Definition closed : JsError := Error "Target closed".

Definition world_ok (chats : list Chat) : World :=
  mkWorld (Fulfilled chats) (fun _ _ => Fulfilled queued) (Fulfilled tt).
Definition world_send_fails (chats : list Chat) : World :=
  mkWorld (Fulfilled chats) (fun _ _ => Rejected boom) (Fulfilled tt).
Definition world_destroy_fails (chats : list Chat) : World :=
  mkWorld (Fulfilled chats) (fun _ _ => Fulfilled queued) (Rejected closed).
Definition world_all_fail : World :=
  mkWorld (Rejected boom) (fun _ _ => Rejected boom) (Rejected closed).

Definition argv_smith : list string :=
  argv_of "node" "send_whatsapp.js" "Dr. Smith" ["Patient"; "stable"].
Definition argv_number : list string :=
  argv_of "node" "send_whatsapp.js" "+1 555 123 4567" ["Reminder"].
Definition argv_pluses : list string :=
  argv_of "node" "send_whatsapp.js" "+ +" ["Reminder"].

(** A world in which the chat list cannot be read. *)
Definition world_no_chats : World :=
  mkWorld (Rejected boom) (fun _ _ => Fulfilled queued) (Fulfilled tt).

(** ** Shared facts: strings and the event loop *)

Lemma truthy_nonempty (s : string) : s <> EmptyString -> truthy s = true.
Proof. destruct s; [congruence | reflexivity]. Qed.

Lemma dispatch_quiet_app (h : ClientEvent -> M unit) (pre rest : list ClientEvent) :
  Forall (fun ev => returns (h ev)) pre ->
  dispatch h (pre ++ rest) =
    (fst (dispatch h pre) ++ fst (dispatch h rest), snd (dispatch h rest)).
Proof.
  induction 1 as [|ev pre Hev Hpre IH]; simpl.
  - now destruct (dispatch h rest).
  - unfold returns in Hev. destruct (h ev) as [t c]; simpl in Hev; subst c.
    rewrite IH. destruct (dispatch h pre) as [tp sp]; simpl.
    now rewrite app_assoc.
Qed.

Lemma dispatch_quiet_running (h : ClientEvent -> M unit) (evs : list ClientEvent) :
  Forall (fun ev => returns (h ev)) evs ->
  snd (dispatch h evs) = Running.
Proof.
  induction 1 as [|ev evs Hev Hevs IH]; simpl; [reflexivity|].
  unfold returns in Hev. destruct (h ev) as [t c]; simpl in Hev; subst c.
  destruct (dispatch h evs); assumption.
Qed.

Lemma dispatch_stops (h : ClientEvent -> M unit) (ev : ClientEvent) (post : list ClientEvent) :
  snd (h ev) <> Ret tt ->
  dispatch h (ev :: post) = (fst (h ev), final (snd (h ev))).
Proof.
  simpl. destruct (h ev) as [t [[]|e|code]]; simpl; intros Hne;
    [congruence | reflexivity | reflexivity].
Qed.

Lemma dispatch_until (h : ClientEvent -> M unit) (pre post : list ClientEvent)
    (ev : ClientEvent) :
  Forall (fun ev => returns (h ev)) pre ->
  snd (h ev) <> Ret tt ->
  dispatch h (pre ++ ev :: post) =
    (fst (dispatch h pre) ++ fst (h ev), final (snd (h ev))).
Proof.
  intros Hpre Hev. rewrite dispatch_quiet_app by assumption.
  now rewrite dispatch_stops.
Qed.


(** ** The top level of the two scripts *)

Lemma plus_main_usage (argv : list string) :
  truthy_opt (nth_error argv 2) && truthy (join (skipn 3 argv)) = false ->
  Plus.main argv = ([ConsoleError [VStr Plus.usage]], Exit 1).
Proof.
  intros H. unfold Plus.main. rewrite <- negb_andb, H. reflexivity.
Qed.

Lemma minimal_main_usage (argv : list string) :
  truthy_opt (nth_error argv 2) && truthy (join (skipn 3 argv)) = false ->
  Minimal.main argv = ([ConsoleError [VStr Minimal.usage]], Exit 1).
Proof.
  intros H. unfold Minimal.main. rewrite <- negb_andb, H. reflexivity.
Qed.

Lemma plus_main_ok (node script raw : string) (parts : list string) :
  raw <> EmptyString -> join parts <> EmptyString ->
  Plus.main (argv_of node script raw parts) =
    (startup, Ret (Plus.mkEnv raw (Plus.normalize raw) (join parts))).
Proof.
  intros Hr Hm. unfold Plus.main, argv_of. simpl nth_error. simpl skipn.
  simpl truthy_opt.
  rewrite (truthy_nonempty _ Hr), (truthy_nonempty _ Hm). reflexivity.
Qed.

Lemma minimal_main_ok (node script raw : string) (parts : list string) :
  raw <> EmptyString -> join parts <> EmptyString ->
  Minimal.main (argv_of node script raw parts) =
    (startup, Ret (Minimal.mkEnv raw (join parts))).
Proof.
  intros Hr Hm. unfold Minimal.main, argv_of. simpl nth_error. simpl skipn.
  simpl truthy_opt.
  rewrite (truthy_nonempty _ Hr), (truthy_nonempty _ Hm). reflexivity.
Qed.

(** Every handler but the one of [ready] returns to the event loop. *)
Lemma plus_quiet (w : World) (env : Plus.Env) (pre : list ClientEvent) :
  forallb not_ready pre = true ->
  Forall (fun ev => returns (Plus.handle w env ev)) pre.
Proof.
  intros H. apply Forall_forall. intros ev Hin.
  rewrite forallb_forall in H. specialize (H ev Hin).
  destruct ev; [reflexivity | discriminate | reflexivity].
Qed.

Lemma minimal_quiet (w : World) (env : Minimal.Env) (pre : list ClientEvent) :
  forallb not_ready pre = true ->
  Forall (fun ev => returns (Minimal.handle w env ev)) pre.
Proof.
  intros H. apply Forall_forall. intros ev Hin.
  rewrite forallb_forall in H. specialize (H ev Hin).
  destruct ev; [reflexivity | discriminate | reflexivity].
Qed.

(** [gracefulExit] always ends in [process.exit(code)], after one call
    of [destroy], whatever [destroy] answers. *)
Lemma gracefulExit_eq (w : World) (code : Z) :
  Plus.gracefulExit w code = ([CallDestroy], Exit code).
Proof.
  unfold Plus.gracefulExit. destruct (destroy w) as [[]|e]; reflexivity.
Qed.

(** The ready handler of the enhanced script, path by path. *)
Lemma plus_on_ready_eq (w : World) (env : Plus.Env) :
  Plus.on_ready w env =
    match getChats w with
    | Rejected e =>
        ([CallGetChats; ConsoleError [VStr "Unexpected error:"; VErr e];
          CallDestroy], Exit 3)
    | Fulfilled chats =>
        match Plus.find_chat env chats with
        | None =>
            ([CallGetChats; ConsoleError [VStr (Plus.not_found_text env)];
              CallDestroy], Exit 2)
        | Some c =>
            match sendMessage w c (Plus.message env) with
            | Fulfilled res =>
                ([CallGetChats; CallSendMessage c (Plus.message env);
                  ConsoleLog [VStr "Message queued:"; VStr (id_id (msg_id res))];
                  SetTimeout 3000; CallDestroy], Exit 0)
            | Rejected e =>
                ([CallGetChats; CallSendMessage c (Plus.message env);
                  ConsoleError [VStr "Failed to send message:"; VErr e];
                  CallDestroy], Exit 1)
            end
        end
    end.
Proof.
  unfold Plus.on_ready, Plus.send.
  destruct (getChats w) as [chats|e]; simpl.
  - destruct (Plus.find_chat env chats) as [c|]; simpl.
    + destruct (sendMessage w c (Plus.message env)) as [res|e]; simpl;
        rewrite gracefulExit_eq; reflexivity.
    + rewrite gracefulExit_eq; reflexivity.
  - rewrite gracefulExit_eq; reflexivity.
Qed.

Lemma minimal_on_ready_eq (w : World) (env : Minimal.Env) :
  Minimal.on_ready w env =
    match getChats w with
    | Rejected e =>
        ([CallGetChats; ConsoleError [VStr "Failed to send message:"; VErr e];
          CallDestroy], minimal_end w)
    | Fulfilled chats =>
        match Minimal.find_chat env chats with
        | None =>
            ([CallGetChats; ConsoleError [VStr (Minimal.not_found_text env)];
              CallDestroy], minimal_end w)
        | Some c =>
            match sendMessage w c (Minimal.message env) with
            | Fulfilled res =>
                ([CallGetChats; CallSendMessage c (Minimal.message env);
                  ConsoleLog [VStr "Message sent:"; VStr (Minimal.message env)];
                  CallDestroy], minimal_end w)
            | Rejected e =>
                ([CallGetChats; CallSendMessage c (Minimal.message env);
                  ConsoleError [VStr "Failed to send message:"; VErr e];
                  CallDestroy], minimal_end w)
            end
        end
    end.
Proof.
  unfold Minimal.on_ready, minimal_end.
  destruct (getChats w) as [chats|e]; simpl.
  - destruct (Minimal.find_chat env chats) as [c|]; simpl.
    + destruct (sendMessage w c (Minimal.message env)) as [res|e]; simpl;
        destruct (destroy w) as [[]|d]; reflexivity.
    + destruct (destroy w) as [[]|d]; reflexivity.
  - destruct (destroy w) as [[]|d]; reflexivity.
Qed.

(** ** Whole runs in which [ready] fires *)

Lemma plus_on_ready_stops (w : World) (env : Plus.Env) :
  snd (Plus.on_ready w env) <> Ret tt.
Proof.
  rewrite plus_on_ready_eq.
  destruct (getChats w) as [chats|e]; [|discriminate].
  destruct (Plus.find_chat env chats) as [c|]; [|discriminate].
  destruct (sendMessage w c (Plus.message env)); discriminate.
Qed.

Lemma minimal_on_ready_stops (w : World) (env : Minimal.Env) :
  snd (Minimal.on_ready w env) <> Ret tt.
Proof.
  assert (He : minimal_end w <> Ret tt)
    by (unfold minimal_end; destruct (destroy w); discriminate).
  rewrite minimal_on_ready_eq.
  destruct (getChats w) as [chats|e]; [|exact He].
  destruct (Minimal.find_chat env chats) as [c|]; [|exact He].
  destruct (sendMessage w c (Minimal.message env)); exact He.
Qed.

Lemma minimal_on_ready_end (w : World) (env : Minimal.Env) :
  snd (Minimal.on_ready w env) = minimal_end w.
Proof.
  rewrite minimal_on_ready_eq.
  destruct (getChats w) as [chats|e]; [|reflexivity].
  destruct (Minimal.find_chat env chats) as [c|]; [|reflexivity].
  destruct (sendMessage w c (Minimal.message env)); reflexivity.
Qed.

Lemma plus_on_ready_end (w : World) (env : Plus.Env) :
  snd (Plus.on_ready w env) = Exit (plus_exit_code w env).
Proof.
  rewrite plus_on_ready_eq. unfold plus_exit_code.
  destruct (getChats w) as [chats|e]; [|reflexivity].
  destruct (Plus.find_chat env chats) as [c|]; [|reflexivity].
  destruct (sendMessage w c (Plus.message env)); reflexivity.
Qed.

Lemma plus_run_ready (w : World) (node script raw : string)
    (parts : list string) (pre post : list ClientEvent) :
  raw <> EmptyString -> join parts <> EmptyString ->
  forallb not_ready pre = true ->
  Plus.run w (argv_of node script raw parts) (pre ++ EvReady :: post) =
    (startup ++ before_ready (Plus.handle w (plus_env raw parts)) pre
       ++ fst (Plus.on_ready w (plus_env raw parts)),
     final (snd (Plus.on_ready w (plus_env raw parts)))).
Proof.
  intros Hr Hm Hpre. unfold Plus.run, run_script.
  rewrite plus_main_ok by assumption. fold (plus_env raw parts).
  rewrite dispatch_until.
  - reflexivity.
  - now apply plus_quiet.
  - apply plus_on_ready_stops.
Qed.

Lemma minimal_run_ready (w : World) (node script raw : string)
    (parts : list string) (pre post : list ClientEvent) :
  raw <> EmptyString -> join parts <> EmptyString ->
  forallb not_ready pre = true ->
  Minimal.run w (argv_of node script raw parts) (pre ++ EvReady :: post) =
    (startup ++ before_ready (Minimal.handle w (minimal_env raw parts)) pre
       ++ fst (Minimal.on_ready w (minimal_env raw parts)),
     final (snd (Minimal.on_ready w (minimal_env raw parts)))).
Proof.
  intros Hr Hm Hpre. unfold Minimal.run, run_script.
  rewrite minimal_main_ok by assumption. fold (minimal_env raw parts).
  rewrite dispatch_until.
  - reflexivity.
  - now apply minimal_quiet.
  - apply minimal_on_ready_stops.
Qed.

(** The handlers of [qr] and [auth_failure] never call [destroy] nor
    [sendMessage]. *)
Lemma before_ready_counts (h : ClientEvent -> M unit) (pre : list ClientEvent)
    (p : effect -> bool) :
  Forall (fun ev => returns (h ev) /\ count p (fst (h ev)) = 0) pre ->
  count p (before_ready h pre) = 0.
Proof.
  unfold before_ready, count.
  induction 1 as [|ev pre [Hret Hc] Hpre IH]; simpl; [reflexivity|].
  unfold returns in Hret. destruct (h ev) as [t c]; simpl in *; subst c.
  destruct (dispatch h pre) as [tp sp]; simpl in *.
  rewrite filter_app, length_app. unfold count in Hc. lia.
Qed.

Lemma plus_before_ready_count (w : World) (env : Plus.Env)
    (pre : list ClientEvent) (p : effect -> bool) :
  forallb not_ready pre = true ->
  (forall a, p (ConsoleError a) = false) ->
  (forall a, p (ConsoleLog a) = false) ->
  (forall q, p (QrGenerate q) = false) ->
  count p (before_ready (Plus.handle w env) pre) = 0.
Proof.
  intros H He Hl Hq. apply before_ready_counts, Forall_forall. intros ev Hin.
  rewrite forallb_forall in H. specialize (H ev Hin).
  destruct ev; [|discriminate|]; split; try reflexivity;
    unfold count; simpl; rewrite ?He, ?Hl, ?Hq; reflexivity.
Qed.

Lemma minimal_before_ready_count (w : World) (env : Minimal.Env)
    (pre : list ClientEvent) (p : effect -> bool) :
  forallb not_ready pre = true ->
  (forall a, p (ConsoleError a) = false) ->
  (forall a, p (ConsoleLog a) = false) ->
  (forall q, p (QrGenerate q) = false) ->
  count p (before_ready (Minimal.handle w env) pre) = 0.
Proof.
  intros H He Hl Hq. apply before_ready_counts, Forall_forall. intros ev Hin.
  rewrite forallb_forall in H. specialize (H ev Hin).
  destruct ev; [|discriminate|]; split; try reflexivity;
    unfold count; simpl; rewrite ?He, ?Hl, ?Hq; reflexivity.
Qed.

Lemma count_app (p : effect -> bool) (t1 t2 : list effect) :
  count p (t1 ++ t2) = count p t1 + count p t2.
Proof. unfold count. now rewrite filter_app, length_app. Qed.

(** ** Chat lookup *)

Lemma find_absent {A} (f : A -> bool) (l : list A) :
  (forall x, In x l -> f x = false) -> find f l = None.
Proof.
  induction l as [|a l IH]; simpl; intros H; [reflexivity|].
  rewrite (H a (or_introl eq_refl)). apply IH. intros x Hx. apply H. now right.
Qed.

(** [find] returns the earliest element that satisfies the test. *)
Lemma find_earliest {A} (f : A -> bool) (l : list A) (x : A) :
  find f l = Some x <->
  exists l1 l2, l = l1 ++ x :: l2 /\ f x = true /\
                forall y, In y l1 -> f y = false.
Proof.
  split.
  - induction l as [|a l IH]; simpl; [discriminate|].
    destruct (f a) eqn:Ha.
    + intros [= ->]. exists [], l. repeat split; [assumption | intros y []].
    + intros H. destruct (IH H) as (l1 & l2 & -> & Hx & Hl1).
      exists (a :: l1), l2. repeat split; [assumption|].
      intros y [<-|Hy]; [assumption | now apply Hl1].
  - intros (l1 & l2 & -> & Hx & Hl1).
    induction l1 as [|a l1 IH]; simpl.
    + now rewrite Hx.
    + rewrite (Hl1 a (or_introl eq_refl)). apply IH.
      intros y Hy. apply Hl1. now right.
Qed.

Lemma string_eqb_false (a b : string) : a <> b -> (a =? b) = false.
Proof. intros H. now apply String.eqb_neq. Qed.

Lemma plus_find_chat_none (raw : string) (parts : list string) (chats : list Chat) :
  (forall c, In c chats -> name c <> raw) ->
  (forall c, In c chats -> user (id c) <> Plus.normalize raw) ->
  Plus.find_chat (plus_env raw parts) chats = None.
Proof.
  intros Hn Hu. unfold Plus.find_chat. simpl.
  rewrite find_absent by (intros c Hc; apply string_eqb_false; auto).
  simpl. apply find_absent. intros c Hc. apply string_eqb_false; auto.
Qed.

Lemma minimal_find_chat_none (raw : string) (parts : list string) (chats : list Chat) :
  (forall c, In c chats -> name c <> raw) ->
  Minimal.find_chat (minimal_env raw parts) chats = None.
Proof.
  intros Hn. unfold Minimal.find_chat. simpl.
  apply find_absent. intros c Hc. apply string_eqb_false; auto.
Qed.

(** ** The claims *)

(** C3. An invocation whose recipient is missing or empty, or whose
    message is missing or empty (no message token, or tokens that join
    to the empty string), writes the usage line to standard error and
    exits with code 1; the line is the only effect of the run, so no
    session object has been created.  Both scripts. *)
Theorem C3_usage_error :
  forall (w : World) (argv : list string) (evs : list ClientEvent),
    nth_error argv 2 = None \/ nth_error argv 2 = Some EmptyString \/
    skipn 3 argv = [] \/ join (skipn 3 argv) = EmptyString ->
    Plus.run w argv evs = ([ConsoleError [VStr Plus.usage]], Exited 1) /\
    Minimal.run w argv evs = ([ConsoleError [VStr Minimal.usage]], Exited 1) /\
    count is_new_client (fst (Plus.run w argv evs)) = 0 /\
    count is_new_client (fst (Minimal.run w argv evs)) = 0.
Proof.
  intros w argv evs H.
  assert (Hbad : truthy_opt (nth_error argv 2)
                 && truthy (join (skipn 3 argv)) = false).
  { destruct H as [-> | [-> | [-> | ->]]]; simpl;
      try reflexivity; apply andb_false_r. }
  unfold Plus.run, Minimal.run, run_script.
  rewrite (plus_main_usage _ Hbad), (minimal_main_usage _ Hbad).
  repeat split.
Qed.

Lemma C3_usage_error_witness :
  skipn 3 ["node"; "send_whatsapp.js"; "Dr. Smith"] = [] /\
  Plus.run (world_ok [chat_smith]) ["node"; "send_whatsapp.js"; "Dr. Smith"]
           [EvReady]
    = ([ConsoleError [VStr Plus.usage]], Exited 1).
Proof.
  split; [reflexivity|].
  exact (proj1 (C3_usage_error (world_ok [chat_smith])
                  ["node"; "send_whatsapp.js"; "Dr. Smith"] [EvReady]
                  (or_intror (or_intror (or_introl eq_refl))))).
Defined.

(** C7. The normalized fallback identifier is the recipient with every
    [+] and every space removed and no other character changed: the
    result of [recipientRaw.replace(/[+ ]/g, '')] is the sequence of the
    characters of the recipient that are neither [+] nor space, in their
    order; in particular it holds neither character. *)
Theorem C7_normalize_strips_plus_and_space :
  forall raw : string,
    list_ascii_of_string (Plus.normalize raw)
      = spec_normalized (list_ascii_of_string raw) /\
    (forall c, In c (list_ascii_of_string (Plus.normalize raw)) ->
               c <> "+"%char /\ c <> " "%char /\
               In c (list_ascii_of_string raw)).
Proof.
  intros raw.
  assert (Heq : list_ascii_of_string (Plus.normalize raw)
                = spec_normalized (list_ascii_of_string raw)).
  { unfold Plus.normalize, spec_normalized.
    induction raw as [|c raw IH]; simpl; [reflexivity|].
    unfold plus_or_space at 1. rewrite <- negb_orb.
    destruct (Ascii.eqb c "+" || Ascii.eqb c " "); simpl;
      [exact IH | now rewrite IH]. }
  split; [exact Heq|].
  intros c Hc. rewrite Heq in Hc. unfold spec_normalized in Hc.
  apply filter_In in Hc. destruct Hc as [Hin Hk].
  apply andb_true_iff in Hk. destruct Hk as [Hp Hs].
  apply negb_true_iff in Hp, Hs.
  apply Ascii.eqb_neq in Hp, Hs. auto.
Qed.

(** C1, as amended.  In a run in which [sendMessage] raises, the error
    is written to standard error after the words "Failed to send
    message:" and the session is released once.  The enhanced script
    then exits with code 1 (its own [catch] in [send] runs, not the one
    of the ready handler that exits with 3); the minimal script exits
    with code 0 when the release succeeds. *)
Theorem C1_send_failure :
  forall (w : World) (node script raw : string) (parts : list string)
         (pre post : list ClientEvent) (chats : list Chat),
    raw <> EmptyString -> join parts <> EmptyString ->
    forallb not_ready pre = true ->
    getChats w = Fulfilled chats ->
    (forall c e,
        Plus.find_chat (plus_env raw parts) chats = Some c ->
        sendMessage w c (join parts) = Rejected e ->
        Plus.run w (argv_of node script raw parts) (pre ++ EvReady :: post) =
          (startup ++ before_ready (Plus.handle w (plus_env raw parts)) pre
             ++ [CallGetChats; CallSendMessage c (join parts);
                 ConsoleError [VStr "Failed to send message:"; VErr e];
                 CallDestroy],
           Exited 1)) /\
    (forall c e,
        Minimal.find_chat (minimal_env raw parts) chats = Some c ->
        sendMessage w c (join parts) = Rejected e ->
        fst (Minimal.run w (argv_of node script raw parts)
                         (pre ++ EvReady :: post)) =
          startup ++ before_ready (Minimal.handle w (minimal_env raw parts)) pre
             ++ [CallGetChats; CallSendMessage c (join parts);
                 ConsoleError [VStr "Failed to send message:"; VErr e];
                 CallDestroy] /\
        (destroy w = Fulfilled tt ->
         snd (Minimal.run w (argv_of node script raw parts)
                          (pre ++ EvReady :: post)) = Exited 0)).
Proof.
  intros w node script raw parts pre post chats Hr Hm Hpre Hg. split.
  - intros c e Hf Hs.
    rewrite plus_run_ready, plus_on_ready_eq, Hg, Hf by assumption.
    simpl Plus.message. rewrite Hs. reflexivity.
  - intros c e Hf Hs.
    rewrite minimal_run_ready, minimal_on_ready_eq, Hg, Hf by assumption.
    simpl Minimal.message. rewrite Hs. simpl. split; [reflexivity|].
    intros Hd. unfold minimal_end. rewrite Hd. reflexivity.
Qed.

Lemma C1_send_failure_witness :
  Plus.find_chat (plus_env "Dr. Smith" ["Patient"; "stable"])
                 [chat_clinic; chat_smith] = Some chat_smith /\
  Plus.run (world_send_fails [chat_clinic; chat_smith]) argv_smith
           ([EvQr "2@abc"] ++ EvReady :: []) =
    (startup ++ [QrGenerate "2@abc";
                 ConsoleLog [VStr "Scan the QR to authenticate."]]
       ++ [CallGetChats; CallSendMessage chat_smith "Patient stable";
           ConsoleError [VStr "Failed to send message:"; VErr boom];
           CallDestroy],
     Exited 1).
Proof.
  split; [reflexivity|].
  exact (proj1 (C1_send_failure (world_send_fails [chat_clinic; chat_smith])
                  "node" "send_whatsapp.js" "Dr. Smith" ["Patient"; "stable"]
                  [EvQr "2@abc"] [] [chat_clinic; chat_smith]
                  ltac:(discriminate) ltac:(discriminate) eq_refl eq_refl)
               chat_smith boom eq_refl eq_refl).
Defined.

(** C1 as stated fails: with a chat found and [sendMessage] rejecting,
    the enhanced script exits with code 1, not 3, and the minimal script
    exits with code 0, not with a non-zero code. *)
Lemma C1_counterexample :
  sendMessage (world_send_fails [chat_smith]) chat_smith "Patient stable"
    = Rejected boom /\
  snd (Plus.run (world_send_fails [chat_smith]) argv_smith [EvReady])
    = Exited 1 /\
  snd (Plus.run (world_send_fails [chat_smith]) argv_smith [EvReady])
    <> Exited 3 /\
  snd (Minimal.run (world_send_fails [chat_smith]) argv_smith [EvReady])
    = Exited 0.
Proof.
  repeat split. vm_compute. discriminate.
Qed.

(** C2, as amended.  When the chat list holds no chat whose name is the
    recipient and none whose numeric user portion is the normalized
    recipient, no send call is issued; the enhanced script logs the
    not-found line, releases the session and exits with code 2; the
    minimal script logs the line, releases the session and, when the
    release succeeds, exits with code 0. *)
Theorem C2_not_found :
  forall (w : World) (node script raw : string) (parts : list string)
         (pre post : list ClientEvent) (chats : list Chat),
    raw <> EmptyString -> join parts <> EmptyString ->
    forallb not_ready pre = true ->
    getChats w = Fulfilled chats ->
    (forall c, In c chats -> name c <> raw) ->
    (forall c, In c chats -> user (id c) <> Plus.normalize raw) ->
    let plus := Plus.run w (argv_of node script raw parts)
                         (pre ++ EvReady :: post) in
    let minimal := Minimal.run w (argv_of node script raw parts)
                               (pre ++ EvReady :: post) in
    plus = (startup ++ before_ready (Plus.handle w (plus_env raw parts)) pre
              ++ [CallGetChats;
                  ConsoleError [VStr ("Chat " ++ quoted raw ++ " not found.")];
                  CallDestroy],
            Exited 2) /\
    count is_send (fst plus) = 0 /\
    fst minimal =
      startup ++ before_ready (Minimal.handle w (minimal_env raw parts)) pre
        ++ [CallGetChats;
            ConsoleError [VStr ("Chat " ++ quoted raw ++ " not found.")];
            CallDestroy] /\
    count is_send (fst minimal) = 0 /\
    (destroy w = Fulfilled tt -> snd minimal = Exited 0).
Proof.
  intros w node script raw parts pre post chats Hr Hm Hpre Hg Hn Hu plus minimal.
  assert (Hp : plus =
    (startup ++ before_ready (Plus.handle w (plus_env raw parts)) pre
       ++ [CallGetChats;
           ConsoleError [VStr ("Chat " ++ quoted raw ++ " not found.")];
           CallDestroy], Exited 2)).
  { unfold plus. rewrite plus_run_ready, plus_on_ready_eq, Hg by assumption.
    now rewrite plus_find_chat_none. }
  assert (Hmin : minimal =
    (startup ++ before_ready (Minimal.handle w (minimal_env raw parts)) pre
       ++ [CallGetChats;
           ConsoleError [VStr ("Chat " ++ quoted raw ++ " not found.")];
           CallDestroy], final (minimal_end w))).
  { unfold minimal.
    rewrite minimal_run_ready, minimal_on_ready_eq, Hg by assumption.
    now rewrite minimal_find_chat_none. }
  rewrite Hp, Hmin. cbn [fst snd].
  split; [reflexivity|]. split; [|split; [reflexivity|split]].
  - rewrite !count_app, plus_before_ready_count by auto. reflexivity.
  - rewrite !count_app, minimal_before_ready_count by auto. reflexivity.
  - intros Hd. unfold minimal_end. now rewrite Hd.
Qed.

Lemma C2_not_found_witness :
  (forall c, In c [chat_clinic] -> name c <> "Dr. Smith") /\
  Plus.run (world_ok [chat_clinic]) argv_smith ([] ++ EvReady :: []) =
    (startup ++ []
       ++ [CallGetChats;
           ConsoleError [VStr ("Chat " ++ quoted "Dr. Smith" ++ " not found.")];
           CallDestroy],
     Exited 2).
Proof.
  assert (Hn : forall c, In c [chat_clinic] -> name c <> "Dr. Smith")
    by (intros c [<-|[]]; discriminate).
  assert (Hu : forall c, In c [chat_clinic] ->
                         user (id c) <> Plus.normalize "Dr. Smith")
    by (intros c [<-|[]]; discriminate).
  split; [exact Hn|].
  exact (proj1 (C2_not_found (world_ok [chat_clinic])
                  "node" "send_whatsapp.js" "Dr. Smith" ["Patient"; "stable"]
                  [] [] [chat_clinic]
                  ltac:(discriminate) ltac:(discriminate) eq_refl eq_refl
                  Hn Hu)).
Defined.

(** C2 as stated fails for the minimal script: no chat matches, and
    the release of the session rejects inside [finally], so that
    [process.exit(0)] is not reached and the run ends on the uncaught
    rejection instead of the success code. *)
Lemma C2_counterexample :
  Plus.find_chat (plus_env "Dr. Smith" ["Patient"; "stable"]) [chat_clinic]
    = None /\
  Minimal.run (world_destroy_fails [chat_clinic]) argv_smith [EvReady] =
    (startup ++ [CallGetChats;
                 ConsoleError [VStr ("Chat " ++ quoted "Dr. Smith"
                                       ++ " not found.")];
                 CallDestroy],
     Uncaught closed) /\
  snd (Minimal.run (world_destroy_fails [chat_clinic]) argv_smith [EvReady])
    <> Exited 0.
Proof.
  repeat split. vm_compute. discriminate.
Qed.

(** C4, as amended.  When the send call succeeds, the session release
    is called exactly once.  The enhanced script awaits a timer of 3000
    milliseconds between the send and the release and exits with code 0,
    whatever the release answers; the minimal script exits with code 0
    when the release succeeds. *)
Theorem C4_send_success :
  forall (w : World) (node script raw : string) (parts : list string)
         (pre post : list ClientEvent) (chats : list Chat),
    raw <> EmptyString -> join parts <> EmptyString ->
    forallb not_ready pre = true ->
    getChats w = Fulfilled chats ->
    let plus := Plus.run w (argv_of node script raw parts)
                         (pre ++ EvReady :: post) in
    let minimal := Minimal.run w (argv_of node script raw parts)
                               (pre ++ EvReady :: post) in
    (forall c res,
        Plus.find_chat (plus_env raw parts) chats = Some c ->
        sendMessage w c (join parts) = Fulfilled res ->
        plus =
          (startup ++ before_ready (Plus.handle w (plus_env raw parts)) pre
             ++ [CallGetChats; CallSendMessage c (join parts);
                 ConsoleLog [VStr "Message queued:"; VStr (id_id (msg_id res))];
                 SetTimeout 3000; CallDestroy],
           Exited 0) /\
        count is_destroy (fst plus) = 1) /\
    (forall c res,
        Minimal.find_chat (minimal_env raw parts) chats = Some c ->
        sendMessage w c (join parts) = Fulfilled res ->
        fst minimal =
          startup ++ before_ready (Minimal.handle w (minimal_env raw parts)) pre
             ++ [CallGetChats; CallSendMessage c (join parts);
                 ConsoleLog [VStr "Message sent:"; VStr (join parts)];
                 CallDestroy] /\
        count is_destroy (fst minimal) = 1 /\
        (destroy w = Fulfilled tt -> snd minimal = Exited 0)).
Proof.
  intros w node script raw parts pre post chats Hr Hm Hpre Hg plus minimal.
  split; intros c res Hf Hs.
  - assert (Hp : plus =
      (startup ++ before_ready (Plus.handle w (plus_env raw parts)) pre
         ++ [CallGetChats; CallSendMessage c (join parts);
             ConsoleLog [VStr "Message queued:"; VStr (id_id (msg_id res))];
             SetTimeout 3000; CallDestroy], Exited 0)).
    { unfold plus.
      rewrite plus_run_ready, plus_on_ready_eq, Hg, Hf by assumption.
      simpl Plus.message. rewrite Hs. reflexivity. }
    split; [exact Hp|]. rewrite Hp. cbn [fst].
    rewrite !count_app, plus_before_ready_count by auto. reflexivity.
  - assert (Hmin : minimal =
      (startup ++ before_ready (Minimal.handle w (minimal_env raw parts)) pre
         ++ [CallGetChats; CallSendMessage c (join parts);
             ConsoleLog [VStr "Message sent:"; VStr (join parts)];
             CallDestroy], final (minimal_end w))).
    { unfold minimal.
      rewrite minimal_run_ready, minimal_on_ready_eq, Hg, Hf by assumption.
      simpl Minimal.message. rewrite Hs. reflexivity. }
    rewrite Hmin. cbn [fst snd]. split; [reflexivity|]. split.
    + rewrite !count_app, minimal_before_ready_count by auto. reflexivity.
    + intros Hd. unfold minimal_end. now rewrite Hd.
Qed.

Lemma C4_send_success_witness :
  Plus.find_chat (plus_env "Dr. Smith" ["Patient"; "stable"])
                 [chat_clinic; chat_smith] = Some chat_smith /\
  Plus.run (world_destroy_fails [chat_clinic; chat_smith]) argv_smith
           ([EvAuthFailure "stale"] ++ EvReady :: [EvReady]) =
    (startup ++ [ConsoleError [VStr "Auth failure"; VStr "stale"]]
       ++ [CallGetChats; CallSendMessage chat_smith "Patient stable";
           ConsoleLog [VStr "Message queued:"; VStr "3EB0A1"];
           SetTimeout 3000; CallDestroy],
     Exited 0).
Proof.
  split; [reflexivity|].
  exact (proj1 (proj1 (C4_send_success
                         (world_destroy_fails [chat_clinic; chat_smith])
                         "node" "send_whatsapp.js" "Dr. Smith"
                         ["Patient"; "stable"]
                         [EvAuthFailure "stale"] [EvReady]
                         [chat_clinic; chat_smith]
                         ltac:(discriminate) ltac:(discriminate)
                         eq_refl eq_refl)
                      chat_smith queued eq_refl eq_refl)).
Defined.

(** C4 as stated fails for the minimal script: the send succeeds and
    the release is called once, but it rejects, and the run ends on the
    uncaught rejection instead of [process.exit(0)]. *)
Lemma C4_counterexample :
  sendMessage (world_destroy_fails [chat_smith]) chat_smith "Patient stable"
    = Fulfilled queued /\
  Minimal.run (world_destroy_fails [chat_smith]) argv_smith [EvReady] =
    (startup ++ [CallGetChats; CallSendMessage chat_smith "Patient stable";
                 ConsoleLog [VStr "Message sent:"; VStr "Patient stable"];
                 CallDestroy],
     Uncaught closed) /\
  snd (Minimal.run (world_destroy_fails [chat_smith]) argv_smith [EvReady])
    <> Exited 0.
Proof.
  split; [reflexivity|]. split; [reflexivity|]. vm_compute. discriminate.
Qed.

(** C5, as amended.  Once the session exists and [ready] fires, the
    release is called exactly once on every path of the ready handler,
    in both scripts.  The enhanced script swallows whatever the release
    raises and exits with the code of the path taken (0, 1, 2 or 3);
    the minimal script exits with code 0 when the release succeeds (an
    error of the release leaves its [finally] block uncaught). *)
Theorem C5_release_once :
  forall (w : World) (node script raw : string) (parts : list string)
         (pre post : list ClientEvent),
    raw <> EmptyString -> join parts <> EmptyString ->
    forallb not_ready pre = true ->
    let plus := Plus.run w (argv_of node script raw parts)
                         (pre ++ EvReady :: post) in
    let minimal := Minimal.run w (argv_of node script raw parts)
                               (pre ++ EvReady :: post) in
    count is_destroy (fst plus) = 1 /\
    snd plus = Exited (plus_exit_code w (plus_env raw parts)) /\
    (forall released : settled unit,
        snd (Plus.run (mkWorld (getChats w) (sendMessage w) released)
                      (argv_of node script raw parts)
                      (pre ++ EvReady :: post)) = snd plus) /\
    count is_destroy (fst minimal) = 1 /\
    (destroy w = Fulfilled tt -> snd minimal = Exited 0) /\
    (forall e, destroy w = Rejected e -> snd minimal = Uncaught e).
Proof.
  intros w node script raw parts pre post Hr Hm Hpre plus minimal.
  unfold plus, minimal.
  assert (Hsw : forall released : settled unit,
             snd (Plus.run (mkWorld (getChats w) (sendMessage w) released)
                           (argv_of node script raw parts)
                           (pre ++ EvReady :: post))
             = snd (Plus.run w (argv_of node script raw parts)
                             (pre ++ EvReady :: post))).
  { intros released. rewrite !plus_run_ready by assumption. cbn [snd].
    now rewrite !plus_on_ready_end. }
  revert Hsw.
  rewrite plus_run_ready, minimal_run_ready by assumption. cbn [fst snd].
  intros Hsw.
  rewrite !count_app.
  rewrite plus_before_ready_count, minimal_before_ready_count by auto.
  rewrite plus_on_ready_end, minimal_on_ready_end.
  split; [|split; [reflexivity|split; [|split; [|split]]]].
  - rewrite plus_on_ready_eq.
    destruct (getChats w) as [chats|e]; [|reflexivity].
    destruct (Plus.find_chat _ chats) as [c|]; [|reflexivity].
    destruct (sendMessage w c _); reflexivity.
  - intros released. rewrite Hsw. now rewrite plus_on_ready_end.
  - rewrite minimal_on_ready_eq.
    destruct (getChats w) as [chats|e]; [|reflexivity].
    destruct (Minimal.find_chat _ chats) as [c|]; [|reflexivity].
    destruct (sendMessage w c _); reflexivity.
  - intros Hd. unfold minimal_end. now rewrite Hd.
  - intros e Hd. unfold minimal_end. now rewrite Hd.
Qed.

Lemma C5_release_once_witness :
  forallb not_ready [EvQr "2@abc"; EvAuthFailure "stale"] = true /\
  count is_destroy
    (fst (Plus.run world_all_fail argv_smith
            ([EvQr "2@abc"; EvAuthFailure "stale"] ++ EvReady :: []))) = 1 /\
  snd (Plus.run world_all_fail argv_smith
         ([EvQr "2@abc"; EvAuthFailure "stale"] ++ EvReady :: []))
    = Exited 3.
Proof.
  split; [reflexivity|].
  pose proof (C5_release_once world_all_fail
                "node" "send_whatsapp.js" "Dr. Smith" ["Patient"; "stable"]
                [EvQr "2@abc"; EvAuthFailure "stale"] []
                ltac:(discriminate) ltac:(discriminate) eq_refl) as H.
  exact (conj (proj1 H) (proj1 (proj2 H))).
Defined.

(** C5 as stated fails for the minimal script: [getChats] rejects, the
    error is logged, the release is called once and rejects too; nothing
    swallows that rejection, [process.exit(0)] is not reached. *)
Lemma C5_counterexample :
  Minimal.run world_all_fail argv_smith [EvReady] =
    (startup ++ [CallGetChats;
                 ConsoleError [VStr "Failed to send message:"; VErr boom];
                 CallDestroy],
     Uncaught closed) /\
  (forall code,
      snd (Minimal.run world_all_fail argv_smith [EvReady]) <> Exited code).
Proof.
  split; [reflexivity|]. intros code. vm_compute. discriminate.
Qed.

(** ** The chat the message goes to *)

Lemma sends_app (t1 t2 : list effect) : sends (t1 ++ t2) = sends t1 ++ sends t2.
Proof. apply filter_app. Qed.

Lemma sends_before_ready_plus (w : World) (env : Plus.Env) (pre : list ClientEvent) :
  forallb not_ready pre = true ->
  sends (before_ready (Plus.handle w env) pre) = [].
Proof.
  intros H. apply length_zero_iff_nil.
  now apply (plus_before_ready_count w env pre is_send).
Qed.

Lemma sends_before_ready_minimal (w : World) (env : Minimal.Env)
    (pre : list ClientEvent) :
  forallb not_ready pre = true ->
  sends (before_ready (Minimal.handle w env) pre) = [].
Proof.
  intros H. apply length_zero_iff_nil.
  now apply (minimal_before_ready_count w env pre is_send).
Qed.

(** The one send call of a run goes to the chat [find_chat] picked. *)
Lemma plus_sends_to (w : World) (node script raw : string) (parts : list string)
    (pre post : list ClientEvent) (chats : list Chat) (c : Chat) :
  raw <> EmptyString -> join parts <> EmptyString ->
  forallb not_ready pre = true ->
  getChats w = Fulfilled chats ->
  Plus.find_chat (plus_env raw parts) chats = Some c ->
  sends (fst (Plus.run w (argv_of node script raw parts)
                       (pre ++ EvReady :: post)))
    = [CallSendMessage c (join parts)].
Proof.
  intros Hr Hm Hpre Hg Hf.
  rewrite plus_run_ready, plus_on_ready_eq, Hg, Hf by assumption. cbn [fst].
  rewrite !sends_app, sends_before_ready_plus by assumption.
  simpl Plus.message. destruct (sendMessage w c (join parts)); reflexivity.
Qed.

Lemma minimal_sends_to (w : World) (node script raw : string)
    (parts : list string) (pre post : list ClientEvent) (chats : list Chat)
    (c : Chat) :
  raw <> EmptyString -> join parts <> EmptyString ->
  forallb not_ready pre = true ->
  getChats w = Fulfilled chats ->
  Minimal.find_chat (minimal_env raw parts) chats = Some c ->
  sends (fst (Minimal.run w (argv_of node script raw parts)
                          (pre ++ EvReady :: post)))
    = [CallSendMessage c (join parts)].
Proof.
  intros Hr Hm Hpre Hg Hf.
  rewrite minimal_run_ready, minimal_on_ready_eq, Hg, Hf by assumption.
  cbn [fst].
  rewrite !sends_app, sends_before_ready_minimal by assumption.
  simpl Minimal.message. destruct (sendMessage w c (join parts)); reflexivity.
Qed.

(** The earliest chat of the given name is the one the name test finds. *)
Lemma find_name_earliest (raw : string) (l1 l2 : list Chat) (c : Chat) :
  name c = raw ->
  (forall d, In d l1 -> name d <> raw) ->
  find (fun d => name d =? raw) (l1 ++ c :: l2) = Some c.
Proof.
  intros Hc Hl1. apply find_earliest. exists l1, l2.
  split; [reflexivity|]. split; [now apply String.eqb_eq|].
  intros d Hd. apply string_eqb_false. now apply Hl1.
Qed.

Lemma find_user_earliest (key : string) (l1 l2 : list Chat) (c : Chat) :
  user (id c) = key ->
  (forall d, In d l1 -> user (id d) <> key) ->
  find (fun d => user (id d) =? key) (l1 ++ c :: l2) = Some c.
Proof.
  intros Hc Hl1. apply find_earliest. exists l1, l2.
  split; [reflexivity|]. split; [now apply String.eqb_eq|].
  intros d Hd. apply string_eqb_false. now apply Hl1.
Qed.

(** A list that holds a chat of the given name splits at the earliest. *)
Lemma earliest_named (raw : string) (chats : list Chat) (c : Chat) :
  In c chats -> name c = raw ->
  exists l1 chosen l2,
    chats = l1 ++ chosen :: l2 /\ name chosen = raw /\
    forall d, In d l1 -> name d <> raw.
Proof.
  intros Hin Hc.
  destruct (find (fun d => name d =? raw) chats) as [chosen|] eqn:Hf.
  - apply find_earliest in Hf. destruct Hf as (l1 & l2 & -> & Hx & Hl1).
    exists l1, chosen, l2. split; [reflexivity|].
    split; [now apply String.eqb_eq|].
    intros d Hd. apply String.eqb_neq. now apply Hl1.
  - apply (find_none _ _ Hf) in Hin. apply String.eqb_neq in Hin. contradiction.
Qed.

(** C6. When the chat list holds a chat whose display name is exactly
    the raw recipient, the chat the enhanced script sends to is found by
    the name test, whatever chats the numeric fallback would match and
    wherever they stand in the list: the chosen chat bears that name,
    it is the chat itself when no chat before it (or no other chat)
    bears the name, and the one send call of the run goes to it. *)
Theorem C6_exact_name_precedes_fallback :
  forall (w : World) (node script raw : string) (parts : list string)
         (pre post : list ClientEvent) (chats : list Chat) (c : Chat),
    raw <> EmptyString -> join parts <> EmptyString ->
    forallb not_ready pre = true ->
    getChats w = Fulfilled chats ->
    In c chats -> name c = raw ->
    exists chosen,
      Plus.find_chat (plus_env raw parts) chats = Some chosen /\
      In chosen chats /\ name chosen = raw /\
      (forall l1 l2, chats = l1 ++ c :: l2 ->
                     (forall d, In d l1 -> name d <> raw) -> chosen = c) /\
      ((forall d, In d chats -> name d = raw -> d = c) -> chosen = c) /\
      sends (fst (Plus.run w (argv_of node script raw parts)
                           (pre ++ EvReady :: post)))
        = [CallSendMessage chosen (join parts)].
Proof.
  intros w node script raw parts pre post chats c Hr Hm Hpre Hg Hin Hc.
  destruct (earliest_named raw chats c Hin Hc)
    as (l1 & chosen & l2 & Hsplit & Hname & Hl1).
  assert (Hfind : find (fun d => name d =? raw) chats = Some chosen)
    by (rewrite Hsplit; now apply find_name_earliest).
  assert (Hf : Plus.find_chat (plus_env raw parts) chats = Some chosen)
    by (unfold Plus.find_chat; simpl; now rewrite Hfind).
  assert (Hmem : In chosen chats)
    by (rewrite Hsplit; apply in_elt).
  exists chosen. split; [exact Hf|]. split; [exact Hmem|].
  split; [exact Hname|]. split; [|split].
  - intros k1 k2 Hk Hk1.
    assert (Hfc : find (fun d => name d =? raw) chats = Some c)
      by (rewrite Hk; now apply find_name_earliest).
    congruence.
  - intros Huniq. now apply Huniq.
  - now apply plus_sends_to with (chats := chats).
Qed.

Lemma C6_exact_name_precedes_fallback_witness :
  user (id chat_clinic) = Plus.normalize "+1 555 123 4567" /\
  name chat_named_number = "+1 555 123 4567" /\
  exists chosen,
    Plus.find_chat (plus_env "+1 555 123 4567" ["Reminder"])
                   [chat_clinic; chat_named_number] = Some chosen /\
    In chosen [chat_clinic; chat_named_number] /\
    name chosen = "+1 555 123 4567" /\
    (forall l1 l2,
        [chat_clinic; chat_named_number] = l1 ++ chat_named_number :: l2 ->
        (forall d, In d l1 -> name d <> "+1 555 123 4567") ->
        chosen = chat_named_number) /\
    ((forall d, In d [chat_clinic; chat_named_number] ->
                name d = "+1 555 123 4567" -> d = chat_named_number) ->
     chosen = chat_named_number) /\
    sends (fst (Plus.run (world_ok [chat_clinic; chat_named_number])
                         argv_number ([] ++ EvReady :: [])))
      = [CallSendMessage chosen (join ["Reminder"])].
Proof.
  split; [reflexivity|]. split; [reflexivity|].
  exact (C6_exact_name_precedes_fallback
           (world_ok [chat_clinic; chat_named_number])
           "node" "send_whatsapp.js" "+1 555 123 4567" ["Reminder"] [] []
           [chat_clinic; chat_named_number] chat_named_number
           ltac:(discriminate) ltac:(discriminate) eq_refl eq_refl
           (or_intror (or_introl eq_refl)) eq_refl).
Defined.

(** C10. Selection follows the order of the list the session returns:
    of several chats that bear the recipient's name the earliest is the
    one the message is sent to (both scripts), and when no chat bears
    the name, of several chats with the normalized recipient as numeric
    user portion the earliest is the one (enhanced script).  The chats
    after it, [l2], are arbitrary. *)
Theorem C10_earliest_match_selected :
  forall (w : World) (node script raw : string) (parts : list string)
         (pre post : list ClientEvent) (l1 l2 : list Chat) (c : Chat),
    raw <> EmptyString -> join parts <> EmptyString ->
    forallb not_ready pre = true ->
    getChats w = Fulfilled (l1 ++ c :: l2) ->
    let plus := Plus.run w (argv_of node script raw parts)
                         (pre ++ EvReady :: post) in
    let minimal := Minimal.run w (argv_of node script raw parts)
                               (pre ++ EvReady :: post) in
    (name c = raw ->
     (forall d, In d l1 -> name d <> raw) ->
     Plus.find_chat (plus_env raw parts) (l1 ++ c :: l2) = Some c /\
     sends (fst plus) = [CallSendMessage c (join parts)] /\
     Minimal.find_chat (minimal_env raw parts) (l1 ++ c :: l2) = Some c /\
     sends (fst minimal) = [CallSendMessage c (join parts)]) /\
    (user (id c) = Plus.normalize raw ->
     (forall d, In d l1 -> user (id d) <> Plus.normalize raw) ->
     (forall d, In d (l1 ++ c :: l2) -> name d <> raw) ->
     Plus.find_chat (plus_env raw parts) (l1 ++ c :: l2) = Some c /\
     sends (fst plus) = [CallSendMessage c (join parts)]).
Proof.
  intros w node script raw parts pre post l1 l2 c Hr Hm Hpre Hg plus minimal.
  split.
  - intros Hc Hl1.
    pose proof (find_name_earliest raw l1 l2 c Hc Hl1) as Hfind.
    assert (Hp : Plus.find_chat (plus_env raw parts) (l1 ++ c :: l2) = Some c)
      by (unfold Plus.find_chat; simpl; now rewrite Hfind).
    assert (Hmin : Minimal.find_chat (minimal_env raw parts) (l1 ++ c :: l2)
                   = Some c) by exact Hfind.
    split; [exact Hp|]. split.
    + now apply plus_sends_to with (chats := l1 ++ c :: l2).
    + split; [exact Hmin|].
      now apply minimal_sends_to with (chats := l1 ++ c :: l2).
  - intros Hc Hl1 Hnone.
    assert (Hp : Plus.find_chat (plus_env raw parts) (l1 ++ c :: l2) = Some c).
    { unfold Plus.find_chat. simpl.
      rewrite find_absent
        by (intros d Hd; apply string_eqb_false; now apply Hnone).
      simpl. now apply find_user_earliest. }
    split; [exact Hp|].
    now apply plus_sends_to with (chats := l1 ++ c :: l2).
Qed.

Lemma C10_earliest_match_selected_witness :
  name chat_smith_bis = name chat_smith /\
  sends (fst (Plus.run (world_ok ([chat_clinic] ++ chat_smith
                                    :: [chat_smith_bis]))
                       argv_smith ([] ++ EvReady :: [])))
    = [CallSendMessage chat_smith "Patient stable"] /\
  sends (fst (Minimal.run (world_ok ([chat_clinic] ++ chat_smith
                                       :: [chat_smith_bis]))
                          argv_smith ([] ++ EvReady :: [])))
    = [CallSendMessage chat_smith "Patient stable"].
Proof.
  split; [reflexivity|].
  assert (Hl1 : forall d, In d [chat_clinic] -> name d <> "Dr. Smith")
    by (intros d [<-|[]]; discriminate).
  pose proof (proj1 (C10_earliest_match_selected
                       (world_ok ([chat_clinic] ++ chat_smith
                                    :: [chat_smith_bis]))
                       "node" "send_whatsapp.js" "Dr. Smith"
                       ["Patient"; "stable"] [] []
                       [chat_clinic] [chat_smith_bis] chat_smith
                       ltac:(discriminate) ltac:(discriminate)
                       eq_refl eq_refl)
                    eq_refl Hl1) as H.
  exact (conj (proj1 (proj2 H)) (proj2 (proj2 (proj2 H)))).
Defined.

(** ** Recipients made of [+] and spaces *)

Lemma normalize_only_plus_space (raw : string) :
  (forall ch, In ch (list_ascii_of_string raw) ->
              ch = "+"%char \/ ch = " "%char) ->
  Plus.normalize raw = EmptyString.
Proof.
  unfold Plus.normalize.
  induction raw as [|a raw IH]; simpl; intros H; [reflexivity|].
  assert (Ha : plus_or_space a = true).
  { destruct (H a (or_introl eq_refl)) as [-> | ->]; reflexivity. }
  rewrite Ha. simpl. apply IH. intros ch Hch. apply H. now right.
Qed.

(** C9. The usage check reads the raw recipient, the lookup its
    normalized form: a recipient made of [+] and space characters only
    passes the usage check (the session is set up, no usage error),
    normalizes to the empty string, and the fallback of the ready
    handler compares the empty string with the numeric user portion of
    each chat, so that the earliest chat with an empty user portion
    receives the message when no chat bears the raw recipient as name. *)
Theorem C9_validation_precedes_normalization :
  forall (w : World) (node script raw : string) (parts : list string)
         (pre post : list ClientEvent) (chats : list Chat),
    raw <> EmptyString ->
    (forall ch, In ch (list_ascii_of_string raw) ->
                ch = "+"%char \/ ch = " "%char) ->
    join parts <> EmptyString ->
    forallb not_ready pre = true ->
    getChats w = Fulfilled chats ->
    let plus := Plus.run w (argv_of node script raw parts)
                         (pre ++ EvReady :: post) in
    Plus.normalize raw = EmptyString /\
    Plus.main (argv_of node script raw parts)
      = (startup, Ret (Plus.mkEnv raw EmptyString (join parts))) /\
    (exists t, fst plus = startup ++ t) /\
    Plus.find_chat (plus_env raw parts) chats
      = js_or (find (fun c => name c =? raw) chats)
              (find (fun c => user (id c) =? EmptyString) chats) /\
    (forall l1 c l2,
        chats = l1 ++ c :: l2 ->
        (forall d, In d chats -> name d <> raw) ->
        user (id c) = EmptyString ->
        (forall d, In d l1 -> user (id d) <> EmptyString) ->
        sends (fst plus) = [CallSendMessage c (join parts)]).
Proof.
  intros w node script raw parts pre post chats Hr Hcls Hm Hpre Hg plus.
  pose proof (normalize_only_plus_space raw Hcls) as Hn.
  assert (Hfc : Plus.find_chat (plus_env raw parts) chats
                = js_or (find (fun c => name c =? raw) chats)
                        (find (fun c => user (id c) =? EmptyString) chats))
    by (unfold Plus.find_chat, plus_env; simpl; now rewrite Hn).
  split; [exact Hn|]. split.
  { rewrite plus_main_ok by assumption. now rewrite Hn. }
  split.
  { unfold plus. rewrite plus_run_ready by assumption. cbn [fst]. eauto. }
  split; [exact Hfc|].
  intros l1 c l2 Hsplit Hnone Hc Hl1.
  apply plus_sends_to with (chats := chats); try assumption.
  rewrite Hfc, find_absent
    by (intros d Hd; apply string_eqb_false; now apply Hnone).
  simpl. rewrite Hsplit. now apply find_user_earliest.
Qed.

Lemma C9_validation_precedes_normalization_witness :
  Plus.normalize "+ +" = EmptyString /\
  Plus.main argv_pluses
    = (startup, Ret (Plus.mkEnv "+ +" EmptyString (join ["Reminder"]))) /\
  sends (fst (Plus.run (world_ok [chat_clinic; chat_no_number]) argv_pluses
                       ([] ++ EvReady :: [])))
    = [CallSendMessage chat_no_number (join ["Reminder"])].
Proof.
  assert (Hcls : forall ch, In ch (list_ascii_of_string "+ +") ->
                            ch = "+"%char \/ ch = " "%char)
    by (intros ch [<-|[<-|[<-|[]]]]; auto).
  pose proof (C9_validation_precedes_normalization
                (world_ok [chat_clinic; chat_no_number])
                "node" "send_whatsapp.js" "+ +" ["Reminder"] [] []
                [chat_clinic; chat_no_number]
                ltac:(discriminate) Hcls ltac:(discriminate)
                eq_refl eq_refl) as H.
  split; [exact (proj1 H)|]. split; [exact (proj1 (proj2 H))|].
  apply (proj2 (proj2 (proj2 (proj2 H))) [chat_clinic] chat_no_number []).
  - reflexivity.
  - intros d [<-|[<-|[]]]; discriminate.
  - reflexivity.
  - intros d [<-|[]]; discriminate.
Defined.

(** ** Events that do not end the run *)

Lemma dispatch_filter (h : ClientEvent -> M unit) (keep : ClientEvent -> bool)
    (evs : list ClientEvent) :
  (forall ev, keep ev = false -> returns (h ev)) ->
  snd (dispatch h evs) = snd (dispatch h (filter keep evs)).
Proof.
  intros Hq. induction evs as [|ev evs IH]; simpl; [reflexivity|].
  destruct (keep ev) eqn:Hk; simpl.
  - destruct (h ev) as [t [[]|e|code]]; simpl; try reflexivity.
    destruct (dispatch h evs), (dispatch h (filter keep evs)). exact IH.
  - specialize (Hq ev Hk). unfold returns in Hq.
    destruct (h ev) as [t c]; simpl in Hq; subst c.
    destruct (dispatch h evs). exact IH.
Qed.

Lemma run_script_filter {Env} (main : M Env)
    (h : Env -> ClientEvent -> M unit) (keep : ClientEvent -> bool)
    (evs : list ClientEvent) :
  (forall env ev, keep ev = false -> returns (h env ev)) ->
  snd (run_script main h evs) = snd (run_script main h (filter keep evs)).
Proof.
  intros Hq. unfold run_script. destruct main as [t [env|e|code]];
    try reflexivity.
  pose proof (dispatch_filter (h env) keep evs (Hq env)) as H.
  destruct (dispatch (h env) evs), (dispatch (h env) (filter keep evs)).
  exact H.
Qed.

Lemma ready_or_not (evs : list ClientEvent) :
  forallb not_ready evs = true \/ In EvReady evs.
Proof.
  induction evs as [|ev evs [IH|IH]]; simpl; auto.
  destruct ev; simpl; auto.
Qed.

Lemma plus_main_cases (argv : list string) :
  Plus.main argv = ([ConsoleError [VStr Plus.usage]], Exit 1) \/
  exists env, Plus.main argv = (startup, Ret env).
Proof.
  destruct (truthy_opt (nth_error argv 2) && truthy (join (skipn 3 argv)))
    eqn:H.
  - right. apply andb_true_iff in H. destruct H as [Hr Hm].
    unfold Plus.main. destruct (nth_error argv 2) as [r|]; [|discriminate].
    rewrite Hr, Hm. simpl. eauto.
  - left. now apply plus_main_usage.
Qed.

Lemma minimal_main_cases (argv : list string) :
  Minimal.main argv = ([ConsoleError [VStr Minimal.usage]], Exit 1) \/
  exists env, Minimal.main argv = (startup, Ret env).
Proof.
  destruct (truthy_opt (nth_error argv 2) && truthy (join (skipn 3 argv)))
    eqn:H.
  - right. apply andb_true_iff in H. destruct H as [Hr Hm].
    unfold Minimal.main. destruct (nth_error argv 2) as [r|]; [|discriminate].
    rewrite Hr, Hm. simpl. eauto.
  - left. now apply minimal_main_usage.
Qed.

(** C8. The handler of [auth_failure] only writes the reason to
    standard error and returns to the event loop, in both scripts.  The
    authentication failures of a run therefore have no part in how it
    ends: the run ends as it would without them, and a run that is over
    either failed the usage check (exit code 1, nothing else done) or
    has seen [ready] fire. *)
Theorem C8_auth_failure_only_logs :
  (forall w env m,
      Plus.handle w env (EvAuthFailure m)
        = ([ConsoleError [VStr "Auth failure"; VStr m]], Ret tt)) /\
  (forall w env m,
      Minimal.handle w env (EvAuthFailure m)
        = ([ConsoleError [VStr "Auth failure"; VStr m]], Ret tt)) /\
  (forall w argv evs,
      snd (Plus.run w argv evs)
        = snd (Plus.run w argv (filter not_auth_failure evs))) /\
  (forall w argv evs,
      snd (Minimal.run w argv evs)
        = snd (Minimal.run w argv (filter not_auth_failure evs))) /\
  (forall w argv evs,
      snd (Plus.run w argv evs) = Running \/
      Plus.run w argv evs = ([ConsoleError [VStr Plus.usage]], Exited 1) \/
      In EvReady evs) /\
  (forall w argv evs,
      snd (Minimal.run w argv evs) = Running \/
      Minimal.run w argv evs = ([ConsoleError [VStr Minimal.usage]], Exited 1) \/
      In EvReady evs).
Proof.
  split; [reflexivity|]. split; [reflexivity|]. split; [|split; [|split]].
  - intros w argv evs. apply run_script_filter.
    intros env [q| |m]; simpl; intros H; [discriminate.. | reflexivity].
  - intros w argv evs. apply run_script_filter.
    intros env [q| |m]; simpl; intros H; [discriminate.. | reflexivity].
  - intros w argv evs. unfold Plus.run, run_script.
    destruct (plus_main_cases argv) as [-> | [env ->]]; [now auto|].
    destruct (ready_or_not evs) as [Hq|Hin]; [left | now auto].
    pose proof (dispatch_quiet_running _ _ (plus_quiet w env evs Hq)) as H.
    destruct (dispatch (Plus.handle w env) evs). exact H.
  - intros w argv evs. unfold Minimal.run, run_script.
    destruct (minimal_main_cases argv) as [-> | [env ->]]; [now auto|].
    destruct (ready_or_not evs) as [Hq|Hin]; [left | now auto].
    pose proof (dispatch_quiet_running _ _ (minimal_quiet w env evs Hq)) as H.
    destruct (dispatch (Minimal.handle w env) evs). exact H.
Qed.

(** ** Every run, whatever the arguments and the events *)

Lemma truthy_empty (s : string) : truthy s = false -> s = EmptyString.
Proof. destruct s; [reflexivity | discriminate]. Qed.

Lemma join_empty_iff (parts : list string) :
  join parts = EmptyString <-> parts = [] \/ parts = [EmptyString].
Proof.
  unfold join. destruct parts as [|x [|y l]]; simpl.
  - split; auto.
  - split; [intros ->; auto | intros [H|H]; [discriminate | now injection H]].
  - split; [destruct x; discriminate | intros [H|H]; discriminate].
Qed.

Lemma bad_args_iff (argv : list string) :
  truthy_opt (nth_error argv 2) && truthy (join (skipn 3 argv)) = false
  <-> bad_args argv.
Proof.
  unfold bad_args. rewrite andb_false_iff. split.
  - intros [H|H].
    + destruct (nth_error argv 2) as [r|]; [|now auto].
      apply truthy_empty in H. subst r. auto.
    + apply truthy_empty in H. apply join_empty_iff in H.
      destruct H; auto.
  - intros [H|[H|[H|H]]]; rewrite H; auto.
Qed.

Lemma good_args (argv : list string) :
  truthy_opt (nth_error argv 2) && truthy (join (skipn 3 argv)) = true ->
  exists raw, nth_error argv 2 = Some raw /\ raw <> EmptyString /\
              join (skipn 3 argv) <> EmptyString.
Proof.
  intros H. apply andb_true_iff in H. destruct H as [Hr Hm].
  destruct (nth_error argv 2) as [r|]; [|discriminate].
  exists r. split; [reflexivity|]. simpl in Hr.
  split; intros E; [rewrite E in Hr | rewrite E in Hm]; discriminate.
Qed.

Lemma plus_main_good (argv : list string) (raw : string) :
  nth_error argv 2 = Some raw -> raw <> EmptyString ->
  join (skipn 3 argv) <> EmptyString ->
  Plus.main argv = (startup, Ret (plus_env raw (skipn 3 argv))).
Proof.
  intros Ha Hr Hm. unfold Plus.main. rewrite Ha. simpl truthy_opt.
  rewrite (truthy_nonempty _ Hr), (truthy_nonempty _ Hm). reflexivity.
Qed.

Lemma minimal_main_good (argv : list string) (raw : string) :
  nth_error argv 2 = Some raw -> raw <> EmptyString ->
  join (skipn 3 argv) <> EmptyString ->
  Minimal.main argv = (startup, Ret (minimal_env raw (skipn 3 argv))).
Proof.
  intros Ha Hr Hm. unfold Minimal.main. rewrite Ha. simpl truthy_opt.
  rewrite (truthy_nonempty _ Hr), (truthy_nonempty _ Hm). reflexivity.
Qed.

Lemma first_ready (evs : list ClientEvent) :
  forallb not_ready evs = true \/
  exists pre post, evs = pre ++ EvReady :: post /\ forallb not_ready pre = true.
Proof.
  induction evs as [|ev evs IH]; [now left|].
  destruct ev as [q| |m].
  - destruct IH as [IH|(pre & post & -> & Hpre)]; [now left|].
    right. exists (EvQr q :: pre), post. now split.
  - right. exists [], evs. now split.
  - destruct IH as [IH|(pre & post & -> & Hpre)]; [now left|].
    right. exists (EvAuthFailure m :: pre), post. now split.
Qed.

Lemma dispatch_quiet (h : ClientEvent -> M unit) (evs : list ClientEvent) :
  Forall (fun ev => returns (h ev)) evs ->
  dispatch h evs = (before_ready h evs, Running).
Proof.
  intros H. unfold before_ready.
  rewrite <- (dispatch_quiet_running h evs H). now destruct (dispatch h evs).
Qed.

Lemma plus_run_view_holds (w : World) (argv : list string)
    (evs : list ClientEvent) :
  plus_run_view w argv evs (Plus.run w argv evs).
Proof.
  unfold Plus.run, run_script.
  destruct (truthy_opt (nth_error argv 2) && truthy (join (skipn 3 argv)))
    eqn:Hargs.
  - destruct (good_args argv Hargs) as (raw & Ha & Hr & Hm).
    rewrite (plus_main_good argv raw Ha Hr Hm).
    destruct (first_ready evs) as [Hq|(pre & post & -> & Hpre)].
    + rewrite dispatch_quiet by now apply plus_quiet.
      now apply PlusWaiting.
    + rewrite dispatch_until;
        [| now apply plus_quiet | apply plus_on_ready_stops].
      now apply (PlusReady w argv _ raw pre post).
  - rewrite (plus_main_usage argv Hargs).
    apply PlusRefused. now apply bad_args_iff.
Qed.

Lemma minimal_run_view_holds (w : World) (argv : list string)
    (evs : list ClientEvent) :
  minimal_run_view w argv evs (Minimal.run w argv evs).
Proof.
  unfold Minimal.run, run_script.
  destruct (truthy_opt (nth_error argv 2) && truthy (join (skipn 3 argv)))
    eqn:Hargs.
  - destruct (good_args argv Hargs) as (raw & Ha & Hr & Hm).
    rewrite (minimal_main_good argv raw Ha Hr Hm).
    destruct (first_ready evs) as [Hq|(pre & post & -> & Hpre)].
    + rewrite dispatch_quiet by now apply minimal_quiet.
      now apply MinimalWaiting.
    + rewrite dispatch_until;
        [| now apply minimal_quiet | apply minimal_on_ready_stops].
      now apply (MinimalReady w argv _ raw pre post).
  - rewrite (minimal_main_usage argv Hargs).
    apply MinimalRefused. now apply bad_args_iff.
Qed.

Lemma bad_args_not_good (argv : list string) (raw : string) :
  bad_args argv -> nth_error argv 2 = Some raw -> raw <> EmptyString ->
  join (skipn 3 argv) <> EmptyString -> False.
Proof.
  intros Hbad Ha Hr Hm. apply bad_args_iff in Hbad.
  rewrite Ha in Hbad. cbn [truthy_opt] in Hbad.
  rewrite (truthy_nonempty _ Hr), (truthy_nonempty _ Hm) in Hbad.
  discriminate.
Qed.


Lemma plus_before_ready_lines (w : World) (env : Plus.Env)
    (pre : list ClientEvent) :
  forallb not_ready pre = true ->
  before_ready (Plus.handle w env) pre = flat_map plus_lines pre.
Proof.
  unfold before_ready. induction pre as [|ev pre IH]; [reflexivity|].
  simpl forallb. intros H. apply andb_true_iff in H. destruct H as [Hev Hpre].
  specialize (IH Hpre). destruct ev as [q| |m]; [|discriminate|]; simpl;
    destruct (dispatch (Plus.handle w env) pre); simpl in *; now rewrite IH.
Qed.

Lemma minimal_before_ready_lines (w : World) (env : Minimal.Env)
    (pre : list ClientEvent) :
  forallb not_ready pre = true ->
  before_ready (Minimal.handle w env) pre = flat_map minimal_lines pre.
Proof.
  unfold before_ready. induction pre as [|ev pre IH]; [reflexivity|].
  simpl forallb. intros H. apply andb_true_iff in H. destruct H as [Hev Hpre].
  specialize (IH Hpre). destruct ev as [q| |m]; [|discriminate|]; simpl;
    destruct (dispatch (Minimal.handle w env) pre); simpl in *; now rewrite IH.
Qed.

(** Split the ready handler of the enhanced script into its four paths,
    and the one of the minimal script likewise. *)
Ltac plus_paths w env :=
  rewrite ?(plus_on_ready_eq w env) in *;
  destruct (getChats w) as [?chats|?e] eqn:?Hg;
  [ destruct (Plus.find_chat env _) as [?c|] eqn:?Hf;
    [ destruct (sendMessage w _ _) as [?res|?e] eqn:?Hs | ] | ].

Ltac minimal_paths w env :=
  rewrite ?(minimal_on_ready_eq w env) in *;
  destruct (getChats w) as [?chats|?e] eqn:?Hg;
  [ destruct (Minimal.find_chat env _) as [?c|] eqn:?Hf;
    [ destruct (sendMessage w _ _) as [?res|?e] eqn:?Hs | ] | ].

(** ** Further properties of the two scripts *)

(** X1. The usage error is raised exactly for the refused arguments:
    no recipient or an empty one, no message token or a single empty
    token.  Two or more message tokens always pass, even empty ones
    (they join to a string of spaces).  Both scripts. *)
Theorem X1_usage_exactly :
  forall (w : World) (argv : list string) (evs : list ClientEvent),
    (Plus.run w argv evs = ([ConsoleError [VStr Plus.usage]], Exited 1)
     <-> bad_args argv) /\
    (Minimal.run w argv evs = ([ConsoleError [VStr Minimal.usage]], Exited 1)
     <-> bad_args argv).
Proof.
  intros w argv evs. split.
  - destruct (plus_run_view_holds w argv evs)
      as [Hbad | raw Ha Hr Hm Hq | raw pre post Ha Hr Hm Hevs Hpre].
    + now split.
    + split; [discriminate | intros Hbad].
      destruct (bad_args_not_good argv raw Hbad Ha Hr Hm).
    + split; [discriminate | intros Hbad].
      destruct (bad_args_not_good argv raw Hbad Ha Hr Hm).
  - destruct (minimal_run_view_holds w argv evs)
      as [Hbad | raw Ha Hr Hm Hq | raw pre post Ha Hr Hm Hevs Hpre].
    + now split.
    + split; [discriminate | intros Hbad].
      destruct (bad_args_not_good argv raw Hbad Ha Hr Hm).
    + split; [discriminate | intros Hbad].
      destruct (bad_args_not_good argv raw Hbad Ha Hr Hm).
Qed.

Lemma X1_usage_exactly_witness :
  bad_args ["node"; "send_whatsapp.js"; "Dr. Smith"; EmptyString] /\
  Plus.run (world_ok [chat_smith])
           ["node"; "send_whatsapp.js"; "Dr. Smith"; EmptyString] [EvReady]
    = ([ConsoleError [VStr Plus.usage]], Exited 1).
Proof.
  assert (Hbad : bad_args ["node"; "send_whatsapp.js"; "Dr. Smith"; EmptyString])
    by (right; right; right; reflexivity).
  split; [exact Hbad|].
  exact (proj2 (proj1 (X1_usage_exactly (world_ok [chat_smith])
                         ["node"; "send_whatsapp.js"; "Dr. Smith"; EmptyString]
                         [EvReady])) Hbad).
Defined.

(** X2. With accepted arguments every run starts by constructing one
    client with the id [patient-watcher], registering the handlers of
    [qr], [ready] and [auth_failure] and calling [initialize], in that
    order, and constructs no other client whatever events follow.  Both
    scripts. *)
Theorem X2_session_created_once :
  forall (w : World) (argv : list string) (evs : list ClientEvent)
         (raw : string),
    nth_error argv 2 = Some raw -> raw <> EmptyString ->
    join (skipn 3 argv) <> EmptyString ->
    (exists t, fst (Plus.run w argv evs) = startup ++ t /\
               count is_new_client t = 0) /\
    (exists t, fst (Minimal.run w argv evs) = startup ++ t /\
               count is_new_client t = 0).
Proof.
  intros w argv evs raw Ha Hr Hm. split.
  - destruct (plus_run_view_holds w argv evs)
      as [Hbad | raw' Ha' Hr' Hm' Hq | raw' pre post Ha' Hr' Hm' Hevs Hpre].
    + destruct (bad_args_not_good argv raw Hbad Ha Hr Hm).
    + eexists. split; [reflexivity|]. now apply plus_before_ready_count.
    + eexists. split; [reflexivity|]. cbn [fst].
      rewrite count_app, plus_before_ready_count by auto.
      plus_paths w (plus_env raw' (skipn 3 argv)); reflexivity.
  - destruct (minimal_run_view_holds w argv evs)
      as [Hbad | raw' Ha' Hr' Hm' Hq | raw' pre post Ha' Hr' Hm' Hevs Hpre].
    + destruct (bad_args_not_good argv raw Hbad Ha Hr Hm).
    + eexists. split; [reflexivity|]. now apply minimal_before_ready_count.
    + eexists. split; [reflexivity|]. cbn [fst].
      rewrite count_app, minimal_before_ready_count by auto.
      minimal_paths w (minimal_env raw' (skipn 3 argv)); reflexivity.
Qed.

Lemma X2_session_created_once_witness :
  nth_error argv_smith 2 = Some "Dr. Smith" /\
  exists t, fst (Plus.run world_all_fail argv_smith [EvReady; EvReady])
            = startup ++ t /\ count is_new_client t = 0.
Proof.
  split; [reflexivity|].
  exact (proj1 (X2_session_created_once world_all_fail argv_smith
                  [EvReady; EvReady] "Dr. Smith" eq_refl
                  ltac:(discriminate) ltac:(discriminate))).
Defined.

(** X3. As long as [ready] has not fired the script only reacts on the
    console: every login code is rendered and followed by the
    instruction line, every authentication failure is logged, in the
    order of the events, and the process keeps running; it never gives
    up waiting by itself.  Both scripts. *)
Theorem X3_waiting_for_ready :
  forall (w : World) (argv : list string) (evs : list ClientEvent)
         (raw : string),
    nth_error argv 2 = Some raw -> raw <> EmptyString ->
    join (skipn 3 argv) <> EmptyString ->
    forallb not_ready evs = true ->
    Plus.run w argv evs = (startup ++ flat_map plus_lines evs, Running) /\
    Minimal.run w argv evs = (startup ++ flat_map minimal_lines evs, Running).
Proof.
  intros w argv evs raw Ha Hr Hm Hq.
  unfold Plus.run, Minimal.run, run_script.
  rewrite (plus_main_good argv raw Ha Hr Hm).
  rewrite (minimal_main_good argv raw Ha Hr Hm).
  rewrite !dispatch_quiet by (apply plus_quiet || apply minimal_quiet; exact Hq).
  now rewrite plus_before_ready_lines, minimal_before_ready_lines.
Qed.

Lemma X3_waiting_for_ready_witness :
  forallb not_ready [EvQr "2@abc"; EvAuthFailure "stale"; EvQr "2@def"] = true /\
  Plus.run (world_ok [chat_smith]) argv_smith
           [EvQr "2@abc"; EvAuthFailure "stale"; EvQr "2@def"]
    = (startup ++ flat_map plus_lines
                    [EvQr "2@abc"; EvAuthFailure "stale"; EvQr "2@def"],
       Running).
Proof.
  split; [reflexivity|].
  exact (proj1 (X3_waiting_for_ready (world_ok [chat_smith]) argv_smith
                  [EvQr "2@abc"; EvAuthFailure "stale"; EvQr "2@def"]
                  "Dr. Smith" eq_refl ltac:(discriminate) ltac:(discriminate)
                  eq_refl)).
Defined.

(** ** The run at the first [ready], for any accepted arguments *)

Lemma plus_run_at_ready (w : World) (argv : list string) (raw : string)
    (pre post : list ClientEvent) :
  nth_error argv 2 = Some raw -> raw <> EmptyString ->
  join (skipn 3 argv) <> EmptyString ->
  forallb not_ready pre = true ->
  Plus.run w argv (pre ++ EvReady :: post) =
    (startup ++ flat_map plus_lines pre
       ++ fst (Plus.on_ready w (plus_env raw (skipn 3 argv))),
     final (snd (Plus.on_ready w (plus_env raw (skipn 3 argv))))).
Proof.
  intros Ha Hr Hm Hpre. unfold Plus.run, run_script.
  rewrite (plus_main_good argv raw Ha Hr Hm).
  rewrite dispatch_until;
    [| now apply plus_quiet | apply plus_on_ready_stops].
  fold (before_ready (Plus.handle w (plus_env raw (skipn 3 argv))) pre).
  now rewrite plus_before_ready_lines.
Qed.

Lemma minimal_run_at_ready (w : World) (argv : list string) (raw : string)
    (pre post : list ClientEvent) :
  nth_error argv 2 = Some raw -> raw <> EmptyString ->
  join (skipn 3 argv) <> EmptyString ->
  forallb not_ready pre = true ->
  Minimal.run w argv (pre ++ EvReady :: post) =
    (startup ++ flat_map minimal_lines pre
       ++ fst (Minimal.on_ready w (minimal_env raw (skipn 3 argv))),
     final (snd (Minimal.on_ready w (minimal_env raw (skipn 3 argv))))).
Proof.
  intros Ha Hr Hm Hpre. unfold Minimal.run, run_script.
  rewrite (minimal_main_good argv raw Ha Hr Hm).
  rewrite dispatch_until;
    [| now apply minimal_quiet | apply minimal_on_ready_stops].
  fold (before_ready (Minimal.handle w (minimal_env raw (skipn 3 argv))) pre).
  now rewrite minimal_before_ready_lines.
Qed.

Lemma plus_run_waiting (w : World) (argv : list string) (raw : string)
    (evs : list ClientEvent) :
  nth_error argv 2 = Some raw -> raw <> EmptyString ->
  join (skipn 3 argv) <> EmptyString ->
  forallb not_ready evs = true ->
  Plus.run w argv evs = (startup ++ flat_map plus_lines evs, Running).
Proof.
  intros Ha Hr Hm Hq. unfold Plus.run, run_script.
  rewrite (plus_main_good argv raw Ha Hr Hm).
  rewrite dispatch_quiet by now apply plus_quiet.
  now rewrite plus_before_ready_lines.
Qed.

Lemma minimal_run_waiting (w : World) (argv : list string) (raw : string)
    (evs : list ClientEvent) :
  nth_error argv 2 = Some raw -> raw <> EmptyString ->
  join (skipn 3 argv) <> EmptyString ->
  forallb not_ready evs = true ->
  Minimal.run w argv evs = (startup ++ flat_map minimal_lines evs, Running).
Proof.
  intros Ha Hr Hm Hq. unfold Minimal.run, run_script.
  rewrite (minimal_main_good argv raw Ha Hr Hm).
  rewrite dispatch_quiet by now apply minimal_quiet.
  now rewrite minimal_before_ready_lines.
Qed.

Lemma plus_run_refused (w : World) (argv : list string)
    (evs : list ClientEvent) :
  truthy_opt (nth_error argv 2) && truthy (join (skipn 3 argv)) = false ->
  Plus.run w argv evs = ([ConsoleError [VStr Plus.usage]], Exited 1).
Proof.
  intros H. unfold Plus.run, run_script. now rewrite plus_main_usage.
Qed.

Lemma minimal_run_refused (w : World) (argv : list string)
    (evs : list ClientEvent) :
  truthy_opt (nth_error argv 2) && truthy (join (skipn 3 argv)) = false ->
  Minimal.run w argv evs = ([ConsoleError [VStr Minimal.usage]], Exited 1).
Proof.
  intros H. unfold Minimal.run, run_script. now rewrite minimal_main_usage.
Qed.

(** The lines written before [ready] hold no call of the library. *)
Lemma plus_lines_count (pre : list ClientEvent) (p : effect -> bool) :
  (forall a, p (ConsoleError a) = false) ->
  (forall a, p (ConsoleLog a) = false) ->
  (forall q, p (QrGenerate q) = false) ->
  count p (flat_map plus_lines pre) = 0.
Proof.
  intros He Hl Hq. unfold count.
  induction pre as [|ev pre IH]; [reflexivity|].
  simpl flat_map. rewrite filter_app, length_app, IH.
  destruct ev; simpl; rewrite ?He, ?Hl, ?Hq; reflexivity.
Qed.

Lemma minimal_lines_count (pre : list ClientEvent) (p : effect -> bool) :
  (forall a, p (ConsoleError a) = false) ->
  (forall a, p (ConsoleLog a) = false) ->
  (forall q, p (QrGenerate q) = false) ->
  count p (flat_map minimal_lines pre) = 0.
Proof.
  intros He Hl Hq. unfold count.
  induction pre as [|ev pre IH]; [reflexivity|].
  simpl flat_map. rewrite filter_app, length_app, IH.
  destruct ev; simpl; rewrite ?He, ?Hl, ?Hq; reflexivity.
Qed.

Lemma sends_plus_lines (pre : list ClientEvent) :
  sends (flat_map plus_lines pre) = [].
Proof. apply length_zero_iff_nil. now apply (plus_lines_count pre is_send). Qed.

Lemma sends_minimal_lines (pre : list ClientEvent) :
  sends (flat_map minimal_lines pre) = [].
Proof. apply length_zero_iff_nil. now apply (minimal_lines_count pre is_send). Qed.

(** What [find_chat] returns is a chat of the list that passes one of
    the two tests, the second only when no chat passes the first. *)
Lemma plus_find_chat_sound (env : Plus.Env) (chats : list Chat) (c : Chat) :
  Plus.find_chat env chats = Some c ->
  In c chats /\
  (name c = Plus.recipientRaw env \/
   (user (id c) = Plus.recipient env /\
    forall d, In d chats -> name d <> Plus.recipientRaw env)).
Proof.
  unfold Plus.find_chat.
  destruct (find (fun c => name c =? Plus.recipientRaw env) chats)
    as [c'|] eqn:Hn; simpl.
  - intros [= ->]. apply find_some in Hn. destruct Hn as [Hin He].
    apply String.eqb_eq in He. auto.
  - intros Hu. apply find_some in Hu. destruct Hu as [Hin He].
    apply String.eqb_eq in He. split; [exact Hin|]. right.
    split; [exact He|]. intros d Hd.
    apply String.eqb_neq. exact (find_none _ _ Hn d Hd).
Qed.

Lemma plus_find_chat_none_inv (env : Plus.Env) (chats : list Chat) :
  Plus.find_chat env chats = None ->
  forall c, In c chats ->
            name c <> Plus.recipientRaw env /\
            user (id c) <> Plus.recipient env.
Proof.
  unfold Plus.find_chat.
  destruct (find (fun c => name c =? Plus.recipientRaw env) chats)
    as [c'|] eqn:Hn; simpl; [discriminate|].
  intros Hu c Hc. split; apply String.eqb_neq.
  - exact (find_none _ _ Hn c Hc).
  - exact (find_none _ _ Hu c Hc).
Qed.

(** X4. When the chat list cannot be read ([getChats] rejects), no
    send call is issued.  The enhanced script logs the error after
    "Unexpected error:", releases the session and exits with code 3;
    the minimal script logs it after "Failed to send message:",
    releases the session and exits with code 0 when the release
    succeeds. *)
Theorem X4_lookup_failure :
  forall (w : World) (argv : list string) (raw : string)
         (pre post : list ClientEvent) (e : JsError),
    nth_error argv 2 = Some raw -> raw <> EmptyString ->
    join (skipn 3 argv) <> EmptyString ->
    forallb not_ready pre = true ->
    getChats w = Rejected e ->
    Plus.run w argv (pre ++ EvReady :: post) =
      (startup ++ flat_map plus_lines pre
         ++ [CallGetChats; ConsoleError [VStr "Unexpected error:"; VErr e];
             CallDestroy],
       Exited 3) /\
    fst (Minimal.run w argv (pre ++ EvReady :: post)) =
      startup ++ flat_map minimal_lines pre
        ++ [CallGetChats; ConsoleError [VStr "Failed to send message:"; VErr e];
            CallDestroy] /\
    (destroy w = Fulfilled tt ->
     snd (Minimal.run w argv (pre ++ EvReady :: post)) = Exited 0).
Proof.
  intros w argv raw pre post e Ha Hr Hm Hpre Hg.
  rewrite (plus_run_at_ready w argv raw pre post Ha Hr Hm Hpre).
  rewrite (minimal_run_at_ready w argv raw pre post Ha Hr Hm Hpre).
  rewrite plus_on_ready_eq, minimal_on_ready_eq, Hg. cbn [fst snd].
  split; [reflexivity|]. split; [reflexivity|].
  intros Hd. unfold minimal_end. now rewrite Hd.
Qed.

Lemma X4_lookup_failure_witness :
  getChats world_no_chats = Rejected boom /\
  Plus.run world_no_chats argv_smith ([EvQr "2@abc"] ++ EvReady :: []) =
    (startup ++ flat_map plus_lines [EvQr "2@abc"]
       ++ [CallGetChats; ConsoleError [VStr "Unexpected error:"; VErr boom];
           CallDestroy],
     Exited 3).
Proof.
  split; [reflexivity|].
  exact (proj1 (X4_lookup_failure world_no_chats argv_smith "Dr. Smith"
                  [EvQr "2@abc"] [] boom eq_refl
                  ltac:(discriminate) ltac:(discriminate) eq_refl eq_refl)).
Defined.


(** Case analysis of a run of either script: arguments refused, waiting
    for [ready], or ended at the first [ready]. *)
Ltac run_cases w argv evs :=
  let Hargs := fresh "Hargs" in
  destruct (truthy_opt (nth_error argv 2) && truthy (join (skipn 3 argv)))
    eqn:Hargs;
  [ let raw := fresh "raw" in
    let Ha := fresh "Ha" in
    let Hr := fresh "Hr" in
    let Hm := fresh "Hm" in
    destruct (good_args argv Hargs) as (raw & Ha & Hr & Hm);
    let Hq := fresh "Hq" in
    let pre := fresh "pre" in
    let post := fresh "post" in
    let Hpre := fresh "Hpre" in
    destruct (first_ready evs) as [Hq|(pre & post & -> & Hpre)];
    [ rewrite ?(plus_run_waiting w argv raw evs Ha Hr Hm Hq),
              ?(minimal_run_waiting w argv raw evs Ha Hr Hm Hq) in *
    | rewrite ?(plus_run_at_ready w argv raw pre post Ha Hr Hm Hpre),
              ?(minimal_run_at_ready w argv raw pre post Ha Hr Hm Hpre) in * ]
  | rewrite ?(plus_run_refused w argv evs Hargs),
            ?(minimal_run_refused w argv evs Hargs) in * ].

Lemma In_sends (x : effect) (t : list effect) :
  In x t -> is_send x = true -> In x (sends t).
Proof. intros Hin Hs. apply filter_In. now split. Qed.

Lemma minimal_find_chat_sound (env : Minimal.Env) (chats : list Chat) (c : Chat) :
  Minimal.find_chat env chats = Some c ->
  In c chats /\ name c = Minimal.recipient env.
Proof.
  unfold Minimal.find_chat. intros H. apply find_some in H.
  destruct H as [Hin He]. apply String.eqb_eq in He. now split.
Qed.

(** X6. A send call is only ever issued to a chat of the list the
    session returned, with the message of the command line (the tokens
    joined by single spaces) as text.  In the enhanced script the chat
    bears the raw recipient as display name, or has the normalized
    recipient as numeric user portion while no chat of the list bears
    the name; in the minimal script the chat bears the recipient as
    display name. *)
Theorem X6_send_goes_to_a_match :
  forall (w : World) (argv : list string) (evs : list ClientEvent)
         (c : Chat) (text : string),
    (In (CallSendMessage c text) (fst (Plus.run w argv evs)) ->
     exists raw chats,
       nth_error argv 2 = Some raw /\ getChats w = Fulfilled chats /\
       In c chats /\
       (name c = raw \/
        (user (id c) = Plus.normalize raw /\
         forall d, In d chats -> name d <> raw)) /\
       text = join (skipn 3 argv)) /\
    (In (CallSendMessage c text) (fst (Minimal.run w argv evs)) ->
     exists raw chats,
       nth_error argv 2 = Some raw /\ getChats w = Fulfilled chats /\
       In c chats /\ name c = raw /\ text = join (skipn 3 argv)).
Proof.
  intros w argv evs c text. split; intros Hin;
    apply In_sends in Hin; try reflexivity; revert Hin.
  - run_cases w argv evs; cbn [fst]; rewrite ?sends_app, ?sends_plus_lines;
      try (intros []).
    plus_paths w (plus_env raw (skipn 3 argv)); cbn [fst];
      try (intros [[= <- <-]|[]]); try (intros []);
      destruct (plus_find_chat_sound _ _ _ Hf) as [Hmem Hmatch];
      exists raw, chats; auto.
  - run_cases w argv evs; cbn [fst]; rewrite ?sends_app, ?sends_minimal_lines;
      try (intros []).
    minimal_paths w (minimal_env raw (skipn 3 argv)); cbn [fst];
      try (intros [[= <- <-]|[]]); try (intros []);
      destruct (minimal_find_chat_sound _ _ _ Hf) as [Hmem Hmatch];
      exists raw, chats; auto.
Qed.

Lemma X6_send_goes_to_a_match_witness :
  In (CallSendMessage chat_clinic "Reminder")
     (fst (Plus.run (world_ok [chat_smith; chat_clinic]) argv_number
                    [EvReady])) /\
  exists raw chats,
    nth_error argv_number 2 = Some raw /\
    getChats (world_ok [chat_smith; chat_clinic]) = Fulfilled chats /\
    In chat_clinic chats /\
    (name chat_clinic = raw \/
     (user (id chat_clinic) = Plus.normalize raw /\
      forall d, In d chats -> name d <> raw)) /\
    "Reminder" = join (skipn 3 argv_number).
Proof.
  assert (Hin : In (CallSendMessage chat_clinic "Reminder")
                   (fst (Plus.run (world_ok [chat_smith; chat_clinic])
                                  argv_number [EvReady])))
    by (vm_compute; auto 10).
  split; [exact Hin|].
  exact (proj1 (X6_send_goes_to_a_match (world_ok [chat_smith; chat_clinic])
                  argv_number [EvReady] chat_clinic "Reminder") Hin).
Defined.


(** X8. The enhanced script reports "not found" exactly when it should:
    at the first [ready], it exits with code 2 if and only if the chat
    list was read and holds no chat whose display name is the raw
    recipient and none whose numeric user portion is the normalized
    recipient. *)
Theorem X8_not_found_exactly :
  forall (w : World) (argv : list string) (raw : string)
         (pre post : list ClientEvent),
    nth_error argv 2 = Some raw -> raw <> EmptyString ->
    join (skipn 3 argv) <> EmptyString ->
    forallb not_ready pre = true ->
    (snd (Plus.run w argv (pre ++ EvReady :: post)) = Exited 2 <->
     exists chats,
       getChats w = Fulfilled chats /\
       forall c, In c chats ->
                 name c <> raw /\ user (id c) <> Plus.normalize raw).
Proof.
  intros w argv raw pre post Ha Hr Hm Hpre.
  rewrite (plus_run_at_ready w argv raw pre post Ha Hr Hm Hpre). cbn [snd].
  split.
  - plus_paths w (plus_env raw (skipn 3 argv)); cbn; try discriminate.
    intros _. exists chats. split; [reflexivity|].
    exact (plus_find_chat_none_inv _ _ Hf).
  - intros (chats & Hg & Hnone).
    rewrite plus_on_ready_eq, Hg, plus_find_chat_none; [reflexivity | |];
      intros c Hc; now apply Hnone.
Qed.

Lemma X8_not_found_exactly_witness :
  snd (Plus.run (world_ok [chat_smith]) argv_number ([] ++ EvReady :: []))
    = Exited 2 /\
  exists chats,
    getChats (world_ok [chat_smith]) = Fulfilled chats /\
    forall c, In c chats ->
              name c <> "+1 555 123 4567" /\
              user (id c) <> Plus.normalize "+1 555 123 4567".
Proof.
  split; [reflexivity|].
  exact (proj1 (X8_not_found_exactly (world_ok [chat_smith]) argv_number
                  "+1 555 123 4567" [] [] eq_refl
                  ltac:(discriminate) ltac:(discriminate) eq_refl)
               eq_refl).
Defined.

Lemma minimal_found_plus_found (raw : string) (parts : list string)
    (chats : list Chat) (c : Chat) :
  Minimal.find_chat (minimal_env raw parts) chats = Some c ->
  Plus.find_chat (plus_env raw parts) chats = Some c.
Proof.
  unfold Minimal.find_chat, Plus.find_chat. simpl. now intros ->.
Qed.

(** X9. The enhanced script extends the minimal one: on the same
    arguments, answers and events, whenever the minimal script issues a
    send call the enhanced script issues the same call, to the same
    chat with the same text. *)
Theorem X9_enhanced_extends_minimal :
  forall (w : World) (argv : list string) (evs : list ClientEvent),
    sends (fst (Minimal.run w argv evs)) <> [] ->
    sends (fst (Plus.run w argv evs)) = sends (fst (Minimal.run w argv evs)).
Proof.
  intros w argv evs.
  run_cases w argv evs; cbn [fst];
    rewrite ?sends_app, ?sends_plus_lines, ?sends_minimal_lines;
    try (intros H; now destruct H).
  minimal_paths w (minimal_env raw (skipn 3 argv)); cbn [fst];
    try (intros H; now destruct H); intros _;
    rewrite plus_on_ready_eq, Hg,
      (minimal_found_plus_found _ _ _ _ Hf);
    simpl Plus.message; simpl Minimal.message in Hs; rewrite Hs;
    reflexivity.
Qed.

Lemma X9_enhanced_extends_minimal_witness :
  sends (fst (Minimal.run (world_send_fails [chat_clinic; chat_smith])
                          argv_smith [EvReady])) <> [] /\
  sends (fst (Plus.run (world_send_fails [chat_clinic; chat_smith])
                       argv_smith [EvReady]))
    = sends (fst (Minimal.run (world_send_fails [chat_clinic; chat_smith])
                              argv_smith [EvReady])).
Proof.
  assert (Hne : sends (fst (Minimal.run
                              (world_send_fails [chat_clinic; chat_smith])
                              argv_smith [EvReady])) <> [])
    by (vm_compute; discriminate).
  split; [exact Hne|].
  exact (X9_enhanced_extends_minimal
           (world_send_fails [chat_clinic; chat_smith]) argv_smith [EvReady]
           Hne).
Defined.

(** X10. The way a run of the minimal script ends tells nothing about
    the message: with the same arguments and events, two worlds whose
    [destroy] answers alike give the same final status, whatever their
    chat lists and whether the send succeeds, fails or is not issued. *)
Theorem X10_minimal_status_ignores_outcome :
  forall (w w' : World) (argv : list string) (evs : list ClientEvent),
    destroy w = destroy w' ->
    snd (Minimal.run w argv evs) = snd (Minimal.run w' argv evs).
Proof.
  intros w w' argv evs Hd.
  destruct (truthy_opt (nth_error argv 2) && truthy (join (skipn 3 argv)))
    eqn:Hargs.
  - destruct (good_args argv Hargs) as (raw & Ha & Hr & Hm).
    destruct (first_ready evs) as [Hq|(pre & post & -> & Hpre)].
    + now rewrite !(minimal_run_waiting _ argv raw evs Ha Hr Hm Hq).
    + rewrite (minimal_run_at_ready w argv raw pre post Ha Hr Hm Hpre).
      rewrite (minimal_run_at_ready w' argv raw pre post Ha Hr Hm Hpre).
      cbn [snd]. rewrite !minimal_on_ready_end. unfold minimal_end.
      now rewrite Hd.
  - now rewrite !(minimal_run_refused _ argv evs Hargs).
Qed.

Lemma X10_minimal_status_ignores_outcome_witness :
  destroy (world_ok [chat_smith]) = destroy (world_send_fails []) /\
  snd (Minimal.run (world_ok [chat_smith]) argv_smith [EvReady])
    = snd (Minimal.run (world_send_fails []) argv_smith [EvReady]).
Proof.
  split; [reflexivity|].
  exact (X10_minimal_status_ignores_outcome (world_ok [chat_smith])
           (world_send_fails []) argv_smith [EvReady] eq_refl).
Defined.

(** X11. Exit code 0 of the enhanced script means the message went out:
    a run exits with code 0 if and only if it issued a send call with
    the message of the command line and that call was fulfilled. *)
Theorem X11_exit_zero_iff_sent :
  forall (w : World) (argv : list string) (evs : list ClientEvent),
    snd (Plus.run w argv evs) = Exited 0 <->
    exists c res,
      In (CallSendMessage c (join (skipn 3 argv))) (fst (Plus.run w argv evs))
      /\ sendMessage w c (join (skipn 3 argv)) = Fulfilled res.
Proof.
  intros w argv evs. split.
  - run_cases w argv evs; cbn [snd]; try discriminate.
    plus_paths w (plus_env raw (skipn 3 argv)); cbn [fst snd final];
      try discriminate.
    intros _. exists c, res. split; [|exact Hs].
    apply in_or_app. right. apply in_or_app. right. simpl. auto.
  - intros (c & res & Hin & Hok). apply In_sends in Hin; [|reflexivity].
    revert Hin Hok.
    run_cases w argv evs; cbn [fst snd];
      rewrite ?sends_app, ?sends_plus_lines; try (intros []).
    rewrite plus_on_ready_eq.
    destruct (getChats w) as [chats|e]; [|intros []].
    destruct (Plus.find_chat _ chats) as [c0|]; [|intros []].
    cbn [Plus.message plus_env].
    destruct (sendMessage w c0 (join (skipn 3 argv))) as [res0|e] eqn:Hs;
      [reflexivity|].
    intros Hin Hok. cbn in Hin. destruct Hin as [Hin|[]].
    injection Hin as <-. congruence.
Qed.

Lemma X11_exit_zero_iff_sent_witness :
  snd (Plus.run (world_ok [chat_smith]) argv_smith [EvReady]) = Exited 0 /\
  exists c res,
    In (CallSendMessage c (join (skipn 3 argv_smith)))
       (fst (Plus.run (world_ok [chat_smith]) argv_smith [EvReady])) /\
    sendMessage (world_ok [chat_smith]) c (join (skipn 3 argv_smith))
      = Fulfilled res.
Proof.
  split; [reflexivity|].
  exact (proj1 (X11_exit_zero_iff_sent (world_ok [chat_smith]) argv_smith
                  [EvReady]) eq_refl).
Defined.



Lemma string_app_assoc (a b c : string) :
  (a ++ (b ++ c) = (a ++ b) ++ c)%string.
Proof. induction a as [|ch a IH]; simpl; [reflexivity | now rewrite IH]. Qed.

Lemma replace_class_g_app (cls : ascii -> bool) (repl a b : string) :
  replace_class_g cls repl (a ++ b)
    = (replace_class_g cls repl a ++ replace_class_g cls repl b)%string.
Proof.
  induction a as [|ch a IH]; simpl; [reflexivity|].
  destruct (cls ch); rewrite IH; [|reflexivity].
  now rewrite string_app_assoc.
Qed.

Lemma normalize_fixed (s : string) :
  Plus.normalize s = s <->
  forall ch, In ch (list_ascii_of_string s) -> plus_or_space ch = false.
Proof.
  unfold Plus.normalize. induction s as [|a s IH]; simpl.
  - split; [intros _ ch [] | reflexivity].
  - destruct (plus_or_space a) eqn:Ha; simpl.
    + split.
      * intros H. exfalso.
        assert (Hlen : String.length (replace_class_g plus_or_space
                                        EmptyString s) <= String.length s).
        { clear. induction s as [|b s IHs]; simpl; [lia|].
          destruct (plus_or_space b); simpl; lia. }
        rewrite H in Hlen. simpl in Hlen. lia.
      * intros H. specialize (H a (or_introl eq_refl)). congruence.
    + split.
      * intros [= H] ch [<-|Hin]; [exact Ha|]. now apply IH.
      * intros H. f_equal. apply IH. intros ch Hin. apply H. now right.
Qed.

Lemma normalize_clean (s : string) (ch : ascii) :
  In ch (list_ascii_of_string (Plus.normalize s)) -> plus_or_space ch = false.
Proof.
  unfold Plus.normalize. induction s as [|a s IH]; simpl; [intros []|].
  destruct (plus_or_space a) eqn:Ha; simpl; [exact IH|].
  intros [<-|Hin]; [exact Ha | now apply IH].
Qed.

(** X13. Normalization of the recipient is idempotent, leaves exactly
    the recipients without [+] and space unchanged, never lengthens the
    recipient and distributes over concatenation: normalizing a
    recipient typed in several pieces gives the pieces' normalizations
    side by side. *)
Theorem X13_normalize_algebra :
  forall a b : string,
    Plus.normalize (Plus.normalize a) = Plus.normalize a /\
    (Plus.normalize a = a <->
     forall ch, In ch (list_ascii_of_string a) ->
                ch <> "+"%char /\ ch <> " "%char) /\
    String.length (Plus.normalize a) <= String.length a /\
    Plus.normalize (a ++ b) = (Plus.normalize a ++ Plus.normalize b)%string.
Proof.
  intros a b. split; [|split; [|split]].
  - apply normalize_fixed. intros ch. apply normalize_clean.
  - rewrite normalize_fixed. split; intros H ch Hin; specialize (H ch Hin).
    + unfold plus_or_space in H. apply orb_false_iff in H.
      destruct H as [Hp Hs]. apply Ascii.eqb_neq in Hp, Hs. now split.
    + destruct H as [Hp Hs]. unfold plus_or_space.
      apply Ascii.eqb_neq in Hp, Hs. now rewrite Hp, Hs.
  - unfold Plus.normalize. induction a as [|ch a IH]; simpl; [lia|].
    destruct (plus_or_space ch); simpl; lia.
  - apply replace_class_g_app.
Qed.

Lemma X13_normalize_algebra_witness :
  (forall ch, In ch (list_ascii_of_string "15551234567") ->
              ch <> "+"%char /\ ch <> " "%char) /\
  Plus.normalize "15551234567" = "15551234567".
Proof.
  assert (H : forall ch, In ch (list_ascii_of_string "15551234567") ->
                         ch <> "+"%char /\ ch <> " "%char).
  { intros ch Hin. simpl in Hin.
    repeat (destruct Hin as [<-|Hin]; [split; discriminate|]).
    destruct Hin. }
  split; [exact H|].
  exact (proj2 (proj1 (proj2 (X13_normalize_algebra "15551234567" "+")))
               H).
Defined.





(** X15. The minimal script has no numeric fallback: when no chat of
    the list bears the recipient as display name, it issues no send
    call and logs the not-found line, even if a chat has the recipient
    (normalized or not) as numeric user portion. *)
Theorem X15_minimal_matches_by_name_only :
  forall (w : World) (argv : list string) (raw : string)
         (pre post : list ClientEvent) (chats : list Chat),
    nth_error argv 2 = Some raw -> raw <> EmptyString ->
    join (skipn 3 argv) <> EmptyString ->
    forallb not_ready pre = true ->
    getChats w = Fulfilled chats ->
    (forall c, In c chats -> name c <> raw) ->
    fst (Minimal.run w argv (pre ++ EvReady :: post)) =
      startup ++ flat_map minimal_lines pre
        ++ [CallGetChats;
            ConsoleError [VStr ("Chat " ++ quoted raw ++ " not found.")];
            CallDestroy] /\
    sends (fst (Minimal.run w argv (pre ++ EvReady :: post))) = [].
Proof.
  intros w argv raw pre post chats Ha Hr Hm Hpre Hg Hnone.
  rewrite (minimal_run_at_ready w argv raw pre post Ha Hr Hm Hpre).
  rewrite minimal_on_ready_eq, Hg, minimal_find_chat_none by exact Hnone.
  cbn [fst]. split; [reflexivity|].
  rewrite !sends_app, sends_minimal_lines. reflexivity.
Qed.

Lemma X15_minimal_matches_by_name_only_witness :
  user (id chat_clinic) = "15551234567" /\
  sends (fst (Minimal.run (world_ok [chat_clinic])
                          (argv_of "node" "send_whatsapp.js" "15551234567"
                                   ["Reminder"])
                          ([] ++ EvReady :: []))) = [].
Proof.
  split; [reflexivity|].
  refine (proj2 (X15_minimal_matches_by_name_only (world_ok [chat_clinic])
                   (argv_of "node" "send_whatsapp.js" "15551234567"
                            ["Reminder"])
                   "15551234567" [] [] [chat_clinic] eq_refl
                   ltac:(discriminate) ltac:(discriminate) eq_refl eq_refl _)).
  intros c [<-|[]]. discriminate.
Defined.
